(** * SceneGraph: the settings store of [ui/settings.py]

    The class [Settings] of [ui/settings.py] extends Qt's [QSettings].  The
    first part of this file embeds the methods of that class over a model of
    the [QSettings] key/value store (keys are slash-separated strings, a stack
    of groups and arrays gives the prefix of every key).  Python exceptions
    are explicit results, the settings object is threaded as state. *)

From Stdlib Require Import Ascii.
From stdpp Require Import gmap strings list fin_maps pretty sorting.

Local Open Scope Z_scope.

(** ** Python values and exceptions *)

(** The values this program hands to [QSettings] and reads back: file names
    (strings), the size of an array (an integer), geometry and window-state
    blobs ([QByteArray]).  [PyNone] is what [QSettings.value] returns for a
    key that is absent. *)
Inductive pyval : Type :=
  | PyNone
  | PyStr (s : string)
  | PyInt (z : Z)
  | PyBytes (b : string).

#[global] Instance pyval_eq_dec : EqDecision pyval.
Proof. solve_decision. Defined.

Inductive exn : Type :=
  | NameError (name : string)
  | UnboundLocalError (name : string)
  | IndexError
  | AttributeError (name : string).

#[global] Instance exn_eq_dec : EqDecision exn.
Proof. solve_decision. Defined.

(** ** The widgets behind [self._parent] *)

Record QDockWidget : Type := mkDock {
  objectName : string;
  dock_geometry : string
}.

Record QMainWindow : Type := mkWindow {
  win_geometry : string;
  win_state : string;
  win_docks : list QDockWidget
}.

(** ** The [QSettings] store *)

(** One entry of the group stack ([QSettingsGroup]): its name, the current
    array index plus one ([-1] for a plain group, [0] for an array whose index
    was not set yet), and the guessed array size ([-1]: no guess). *)
Record QSettingsGroup : Type := mkGroup {
  g_str : string;
  g_num : Z;
  g_maxNum : Z
}.

Record Settings : Type := mkSettings {
  store : gmap string pyval;
  groupStack : list QSettingsGroup;
  _max_files : Z;
  _parent : option QMainWindow;
  _groups : list string
}.

Definition set_store (m : gmap string pyval) (s : Settings) : Settings :=
  mkSettings m (groupStack s) (_max_files s) (_parent s) (_groups s).

Definition set_stack (st : list QSettingsGroup) (s : Settings) : Settings :=
  mkSettings (store s) st (_max_files s) (_parent s) (_groups s).

Definition set_parent (w : option QMainWindow) (s : Settings) : Settings :=
  mkSettings (store s) (groupStack s) (_max_files s) w (_groups s).

(** *** Keys *)

Definition slash : ascii := "/"%char.

Fixpoint segments_go (cur : string) (k : string) : list string :=
  match k with
  | EmptyString => [String.rev cur]
  | String c k' =>
      if decide (c = slash) then String.rev cur :: segments_go "" k'
      else segments_go (String c cur) k'
  end.

Definition segments (k : string) : list string := segments_go "" k.

Fixpoint join_slash (l : list string) : string :=
  match l with
  | [] => ""
  | [x] => x
  | x :: l' => x +:+ "/" +:+ join_slash l'
  end.

(** [QSettingsPrivate::normalizedKey]: no leading, trailing or doubled
    slash. *)
Definition normalizedKey (k : string) : string :=
  join_slash (filter (λ x, x ≠ "") (segments k)).

Definition group_toString (g : QSettingsGroup) : string :=
  if decide (0 < g_num g) then g_str g +:+ "/" +:+ pretty (g_num g) else g_str g.

Definition group_piece (g : QSettingsGroup) : string :=
  if decide (group_toString g = "") then "" else group_toString g +:+ "/".

(** The prefix of every key, from the group stack (its head is the innermost
    group). *)
Fixpoint prefix_of (st : list QSettingsGroup) : string :=
  match st with
  | [] => ""
  | g :: st' => prefix_of st' +:+ group_piece g
  end.

Definition groupPrefix (s : Settings) : string := prefix_of (groupStack s).

Definition actualKey (s : Settings) (k : string) : string :=
  groupPrefix s +:+ normalizedKey k.

Fixpoint strip_prefix (p k : string) : option string :=
  match p with
  | EmptyString => Some k
  | String a p' =>
      match k with
      | EmptyString => None
      | String b k' => if decide (a = b) then strip_prefix p' k' else None
      end
  end.

Fixpoint drop_last (k : string) : string :=
  match k with
  | EmptyString => ""
  | String _ EmptyString => ""
  | String c k' => String c (drop_last k')
  end.

(** The part of a key before its first slash, when it has one. *)
Fixpoint child_group_go (cur : string) (k : string) : option string :=
  match k with
  | EmptyString => None
  | String c k' =>
      if decide (c = slash) then Some (String.rev cur)
      else child_group_go (String c cur) k'
  end.

Definition child_group (k : string) : option string := child_group_go "" k.

(** *** [QVariant::toInt] *)

Fixpoint digits_to_Z (acc : Z) (k : string) : option Z :=
  match k with
  | EmptyString => Some acc
  | String c k' =>
      match Ascii.is_nat c with
      | Some d => digits_to_Z (10 * acc + Z.of_nat d) k'
      | None => None
      end
  end.

Definition string_toInt (k : string) : Z :=
  match k with
  | EmptyString => 0
  | String "-" (String c k') => default 0 (Z.opp <$> digits_to_Z 0 (String c k'))
  | _ => default 0 (digits_to_Z 0 k)
  end.

(** A store read from an ini file holds the size of an array as the string
    of its decimal digits; what is not a number converts to [0]. *)
Definition toInt (v : pyval) : Z :=
  match v with
  | PyInt z => z
  | PyStr k => string_toInt k
  | PyBytes k => string_toInt k
  | PyNone => 0
  end.

(** ** The monad of the methods: state and exceptions *)

Inductive outcome (A : Type) : Type :=
  | Ret (a : A) (s : Settings)
  | Exc (e : exn) (s : Settings).

Arguments Ret {A} a s.
Arguments Exc {A} e s.

Definition M (A : Type) : Type := Settings → outcome A.

Definition ret {A} (a : A) : M A := λ s, Ret a s.

Definition raise {A} (e : exn) : M A := λ s, Exc e s.

Definition bind {A B} (m : M A) (f : A → M B) : M B :=
  λ s, match m s with
       | Ret a s' => f a s'
       | Exc e s' => Exc e s'
       end.

Definition get : M Settings := λ s, Ret s s.

Definition modify (f : Settings → Settings) : M unit := λ s, Ret tt (f s).

#[global] Instance M_ret : MRet M := @ret.

#[global] Instance M_bind : MBind M := λ A B f m, bind m f.

(** [for x in xs: acc = body(x, acc)] *)
Fixpoint for_each {A B} (xs : list A) (acc : B) (body : A → B → M B) : M B :=
  match xs with
  | [] => ret acc
  | x :: xs' => acc' ← body x acc; for_each xs' acc' body
  end.

(** Python's [range(n)] *)
Definition range (n : Z) : list Z := seqZ 0 n.

(** ** [QSettings] operations *)

Definition setValue (k : string) (v : pyval) : M unit :=
  modify (λ s, set_store (<[actualKey s k := v]> (store s)) s).

Definition value (k : string) : M pyval :=
  λ s, Ret (default PyNone (store s !! actualKey s k)) s.

(** [QSettings::group]: the prefix without its last slash. *)
Definition group : M string := λ s, Ret (drop_last (groupPrefix s)) s.

(** Removing a key removes it and every key below it. *)
Definition remove_key (k : string) (m : gmap string pyval) : gmap string pyval :=
  filter (λ kv, kv.1 ≠ k ∧ strip_prefix (k +:+ "/") kv.1 = None) m.

Definition remove (k : string) : M unit :=
  modify (λ s,
    let theKey :=
      if decide (normalizedKey k = "") then drop_last (groupPrefix s)
      else groupPrefix s +:+ normalizedKey k in
    if decide (theKey = "") then set_store ∅ s
    else set_store (remove_key theKey (store s)) s).

(** [QSettings::allKeys]: the keys below the current group, relative to it. *)
Definition allKeys : M (list string) :=
  λ s, Ret (omap (strip_prefix (groupPrefix s)) (map_to_list (store s)).*1) s.

Definition childGroups : M (list string) :=
  keys ← allKeys; ret (remove_dups (omap child_group keys)).

Definition beginGroup (prefix : string) : M unit :=
  modify (λ s, set_stack (mkGroup (normalizedKey prefix) (-1) (-1) :: groupStack s) s).

Definition endGroup : M unit :=
  modify (λ s, set_stack (tail (groupStack s)) s).

Definition beginWriteArray (prefix : string) (size : Z) : M unit :=
  modify (λ s, set_stack
    (mkGroup (normalizedKey prefix) 0 (if decide (size < 0) then 0 else -1)
       :: groupStack s) s);;
  if decide (size < 0) then remove "size" else setValue "size" (PyInt size).

Definition beginReadArray (prefix : string) : M Z :=
  modify (λ s, set_stack (mkGroup (normalizedKey prefix) 0 (-1) :: groupStack s) s);;
  v ← value "size"; ret (toInt v).

Definition group_setArrayIndex (i : Z) (g : QSettingsGroup) : QSettingsGroup :=
  let num := i + 1 in
  mkGroup (g_str g) num
    (if decide (g_maxNum g ≠ -1 ∧ g_maxNum g < num) then num else g_maxNum g).

(** Without an array on top of the stack Qt only warns. *)
Definition setArrayIndex (i : Z) : M unit :=
  modify (λ s,
    match groupStack s with
    | g :: st =>
        if decide (g_num g = -1) then s
        else set_stack (group_setArrayIndex (Z.max i 0) g :: st) s
    | [] => s
    end).

Definition endArray : M unit :=
  s ← get;
  match groupStack s with
  | g :: st =>
      modify (set_stack st);;
      if decide (g_maxNum g ≠ -1)
      then setValue (g_str g +:+ "/size") (PyInt (g_maxNum g))
      else ret tt
  | [] => ret tt
  end.

(** ** [QWidget] operations *)

Definition saveGeometry (w : QMainWindow) : pyval := PyBytes (win_geometry w).

Definition saveState (w : QMainWindow) : pyval := PyBytes (win_state w).

(** Only a blob changes the widget; Qt refuses anything else and returns
    [False]. *)
Definition restoreGeometry (v : pyval) (w : QMainWindow) : QMainWindow :=
  match v with
  | PyBytes b => mkWindow b (win_state w) (win_docks w)
  | _ => w
  end.

Definition restoreState (v : pyval) (w : QMainWindow) : QMainWindow :=
  match v with
  | PyBytes b => mkWindow (win_geometry w) b (win_docks w)
  | _ => w
  end.

Definition dock_restoreGeometry (v : pyval) (d : QDockWidget) : QDockWidget :=
  match v with
  | PyBytes b => mkDock (objectName d) b
  | _ => d
  end.

(** [findChildren(QDockWidget)]: every dock of the window; with a name, the
    positions of the docks of that name. *)
Definition findChildren (w : QMainWindow) : list QDockWidget := win_docks w.

Fixpoint find_named (name : string) (i : nat) (ds : list QDockWidget) : list nat :=
  match ds with
  | [] => []
  | d :: ds' =>
      if decide (objectName d = name) then i :: find_named name (S i) ds'
      else find_named name (S i) ds'
  end.

Definition findChildren_named (w : QMainWindow) (name : string) : list nat :=
  find_named name 0%nat (win_docks w).

(** ** Python helpers *)

(** The names bound at module level of [settings.py]: its imports ([os],
    [QtCore], [QtGui], [log]) and the class it defines.  No built-in is named
    [options]. *)
Definition module_globals : list string :=
  ["os"; "QtCore"; "QtGui"; "log"; "Settings"].

(** Reading a global name that is not bound raises [NameError]. *)
Definition load_global (name : string) : M unit :=
  if decide (name ∈ module_globals) then ret tt else raise (NameError name).

(** [l[:k]] *)
Definition slice_to {A} (l : list A) (k : Z) : list A :=
  if decide (0 ≤ k) then take (Z.to_nat k) l
  else take (Z.to_nat (Z.of_nat (length l) + k)) l.

(** A method call on [self._parent]; [None] has no methods. *)
Definition with_parent {A} (method : string) (f : QMainWindow → M A) : M A :=
  s ← get;
  match _parent s with
  | Some w => f w
  | None => raise (AttributeError method)
  end.

Definition set_window (w : QMainWindow) : M unit := modify (set_parent (Some w)).

(** [while self.group(): self.endGroup()]: every round pops one group, so the
    depth of the stack bounds the number of rounds. *)
Fixpoint while_group (fuel : nat) : M unit :=
  match fuel with
  | O => ret tt
  | S n => g ← group; if decide (g ≠ "") then endGroup;; while_group n else ret tt
  end.

Definition end_groups : M unit :=
  s ← get; while_group (length (groupStack s)).

(** ** The class [Settings] *)

Section SettingsClass.

(** The table [SCENEGRAPH_PREFERENCES] of the module [SceneGraph.options],
    which [settings.py] names but which is not among the sources: every
    option with its [default] entry, when it has one. *)
Variable SCENEGRAPH_PREFERENCES : list (string * option pyval).

Definition initializePreferences : M unit :=
  groups ← childGroups;
  if decide ("Preferences" ∉ groups) then
    beginGroup "Preferences";;
    load_global "options";;
    for_each SCENEGRAPH_PREFERENCES tt (λ entry _,
      load_global "options";;
      match entry.2 with
      | Some v => load_global "options";; setValue ("default/" +:+ entry.1) v
      | None => ret tt
      end);;
    end_groups
  else ret tt.

Definition initialize : M unit :=
  groups ← childGroups;
  (if decide ("MainWindow" ∉ groups) then
     s ← get;
     match _parent s with
     | Some w =>
         setValue "MainWindow/geometry/default" (saveGeometry w);;
         setValue "MainWindow/windowState/default" (saveState w)
     | None => ret tt
     end
   else ret tt);;
  groups ← childGroups;
  (if decide ("RecentFiles" ∉ groups) then
     beginWriteArray "RecentFiles" 0;; endArray
   else ret tt);;
  end_groups;;
  initializePreferences.

(** [Settings(filename, frmt, parent, max_files)]; [stored] is what the file
    [filename] holds. *)
Definition __init__ (stored : gmap string pyval) (parent : option QMainWindow)
    (max_files : Z) : outcome unit :=
  initialize
    (mkSettings stored [] max_files parent ["MainWindow"; "RecentFiles"; "Preferences"]).

End SettingsClass.

Definition window_keys : M (list string) :=
  s ← get;
  match _parent s with
  | None => ret []
  | Some w =>
      for_each (findChildren w) ["MainWindow"] (λ dock result,
        ret (result ++ [objectName dock]))
  end.

Definition saveLayout (layout : string) : M unit :=
  with_parent "saveGeometry" (λ w,
    setValue ("MainWindow/geometry/" +:+ layout) (saveGeometry w));;
  with_parent "saveState" (λ w,
    setValue ("MainWindow/windowState/" +:+ layout) (saveState w));;
  with_parent "findChildren" (λ w,
    for_each (findChildren w) tt (λ dock _,
      setValue (objectName dock +:+ "/geometry/" +:+ layout)
        (PyBytes (dock_geometry dock)))).

(** The local variable [value] of [restoreLayout] is bound only by the
    [MainWindow] branch; [None] stands for "not bound yet". *)
Definition restoreLayout_body (layout : string) (widget_name : string)
    (value_var : option pyval) : M (option pyval) :=
  let key_name := widget_name +:+ "/geometry/" +:+ layout in
  if decide (widget_name ≠ "MainWindow") then
    with_parent "findChildren" (λ w,
      match findChildren_named w widget_name with
      | i :: _ =>
          match value_var with
          | None => raise (UnboundLocalError "value")
          | Some v =>
              set_window
                (mkWindow (win_geometry w) (win_state w)
                   (alter (dock_restoreGeometry v) i (win_docks w)));;
              ret value_var
          end
      | [] => ret value_var
      end)
  else
    keys ← allKeys;
    value_var ←
      (if decide (key_name ∈ keys) then
         v ← value key_name;
         with_parent "restoreGeometry" (λ w, set_window (restoreGeometry v w));;
         ret (Some v)
       else ret value_var);
    let window_state := widget_name +:+ "/windowState/" +:+ layout in
    keys ← allKeys;
    (if decide (window_state ∈ keys) then
       v ← value window_state;
       with_parent "restoreState" (λ w, set_window (restoreState v w))
     else ret tt);;
    ret value_var.

Definition restoreLayout (layout : string) : M unit :=
  keys ← window_keys;
  for_each keys None (restoreLayout_body layout);;
  ret tt.

(** *** Recent files *)

Definition getRecentFiles : M (list pyval) :=
  cnt ← beginReadArray "RecentFiles";
  recent_files ← for_each (range cnt) [] (λ i recent_files,
    setArrayIndex i;;
    fn ← value "file";
    ret (recent_files ++ [fn]));
  endArray;;
  ret recent_files.

Definition addRecentFile (filename : string) : M unit :=
  recent_files ← getRecentFiles;
  let recent_files :=
    if decide (PyStr filename ∈ recent_files)
    then filter (λ x, x ≠ PyStr filename) recent_files
    else recent_files in
  let recent_files := recent_files ++ [PyStr filename] in
  beginWriteArray "RecentFiles" (-1);;
  for_each (range (Z.of_nat (length recent_files))) tt (λ i _,
    setArrayIndex i;;
    match recent_files !! Z.to_nat i with
    | Some v => setValue "file" v
    | None => raise IndexError
    end);;
  endArray.

Definition recent_files : M (list pyval) :=
  files ← getRecentFiles;
  tmp ← for_each (reverse files) [] (λ f tmp, ret (tmp ++ [f]));
  s ← get;
  ret (slice_to tmp (_max_files s)).

Definition clearRecentFiles : M unit := remove "RecentFiles".

(** A run of [addRecentFile] calls. *)
Definition addRecentFiles (paths : list string) : M unit :=
  for_each paths tt (λ p _, addRecentFile p).

(** *** The other methods of the class *)

(** ['sub' in k] on strings. *)
Fixpoint contains (sub k : string) : bool :=
  match strip_prefix sub k with
  | Some _ => true
  | None =>
      match k with
      | EmptyString => false
      | String _ k' => contains sub k'
      end
  end.

(** [k.split(sep)] for a separator that is not empty: the occurrences of
    [sep] are found from the left and do not overlap; [skip] counts the
    characters of an occurrence still to pass over. *)
Fixpoint split_go (sep : string) (skip : nat) (cur : string) (k : string)
    : list string :=
  match k with
  | EmptyString => [String.rev cur]
  | String c k' =>
      match skip with
      | S n => split_go sep n cur k'
      | O =>
          match strip_prefix sep k with
          | Some _ => String.rev cur :: split_go sep (String.length sep - 1) "" k'
          | None => split_go sep 0 (String c cur) k'
          end
      end
  end.

Definition split (sep k : string) : list string := split_go sep 0 "" k.

(** [sorted(list(set(names)))] on strings. *)
Definition sorted_set (names : list string) : list string :=
  merge_sort String.le (remove_dups names).

(** The body of the loop of [get_layouts]; [attrs[-1]] of an empty list
    raises [IndexError]. *)
Definition get_layouts_body (k : string) (layout_names : list string)
    : M (list string) :=
  if contains "geometry" k then
    let attrs := split "/geometry/" k in
    if decide (1 < length attrs)%nat then
      match last attrs with
      | Some name => ret (layout_names ++ [name])
      | None => raise IndexError
      end
    else ret layout_names
  else ret layout_names.

Definition get_layouts : M (list string) :=
  keys ← window_keys;
  let layout_keys := (λ x, x +:+ "/geometry") <$> keys in
  keys ← allKeys;
  layout_names ← for_each keys [] get_layouts_body;
  ret (sorted_set layout_names).

Definition deleteLayout_body (layout : string) (widget_name : string) : M unit :=
  let key_name := widget_name +:+ "/geometry/" +:+ layout in
  keys ← allKeys;
  (if decide (key_name ∈ keys) then remove key_name else ret tt);;
  if decide (widget_name = "MainWindow") then
    let window_state := widget_name +:+ "/windowState/" +:+ layout in
    keys ← allKeys;
    if decide (window_state ∈ keys) then remove window_state else ret tt
  else ret tt.

Definition deleteLayout (layout : string) : M unit :=
  keys ← window_keys;
  for_each keys tt (λ widget_name _, deleteLayout_body layout widget_name).

(** [getDefaultValue(key, *groups)]; [groups[0]] of no groups raises
    [IndexError]. *)
Definition getDefaultValue (key : string) (groups : list string) : M pyval :=
  g ← group;
  (if decide (g ≠ "") then endGroup else ret tt);;
  match groups with
  | [] => raise IndexError
  | first :: others =>
      group_name ← for_each others first (λ grp group_name,
        ret (group_name +:+ "/" +:+ grp));
      let group_name := group_name +:+ "/" +:+ "default" in
      let group_name := group_name +:+ "/" +:+ key in
      keys ← allKeys;
      if decide (group_name ∈ keys) then value group_name else ret PyNone
  end.

(** * The scene graph engine

    [ui/__init__.py] only names the modules of the engine ([models],
    [handlers], [commands], ...); their code is not among the sources.  The
    definitions of this part follow the specification of the engine: the Graph
    Model and its change events, the Commands built from those events, the
    Command Stack, the Derived View Models and the Scene Handler. *)

Module Scene.

(** Modelled from the spec: the direction of a Connection (the port class of
    [node_widgets], absent from the sources). *)
Inductive direction : Type := Input | Output.

#[global] Instance direction_eq_dec : EqDecision direction.
Proof. solve_decision. Defined.

(** Modelled from the spec: the tagged attribute values of a Node (the
    attribute types of [attributes], absent from the sources).  The engine
    stores and restores values and never computes with them; numbers are
    kept as integers. *)
Inductive attr_value : Type :=
  | VBool (b : bool)
  | VInt2 (x y : Z)
  | VInt3 (x y z : Z)
  | VFloat2 (x y : Z)
  | VFloat3 (x y z : Z)
  | VColor (r g b : Z)
  | VString (s : string).

(** Modelled from the spec: a Connection (port) of [node_widgets], with its
    name and direction. *)
Record Connection : Type := mkConnection {
  conn_name : string;
  conn_dir : direction
}.

(** Modelled from the spec: a Node of [node_widgets]: display name,
    position, attributes and the ordered list of its Connections.  The
    identifier is the key under which the Graph holds it. *)
Record Node : Type := mkNode {
  node_name : string;
  node_pos : Z * Z;
  node_attrs : gmap string attr_value;
  node_ports : list Connection
}.

(** Modelled from the spec: an Edge of [node_widgets]; a Connection is
    referred to by the identifier of its Node and its name. *)
Record Edge : Type := mkEdge {
  edge_src : string * string;
  edge_dst : string * string
}.

(** Modelled from the spec: the Graph aggregate of [models], keyed by
    identifier. *)
Record Graph : Type := mkGraph {
  nodes : gmap string Node;
  edges : gmap string Edge
}.

(** Modelled from the spec: the typed failures of section 7 (the error
    types of [handlers] and [models], absent from the sources). *)
Inductive failure : Type :=
  | NotFound
  | DuplicateIdentifier
  | DanglingConnection
  | IncompatibleDirection
  | InputAlreadyOccupied
  | ReentrantMutation.

(** Modelled from the spec: the result of a Graph Model call or of
    [handle]: success or a typed failure. *)
Inductive result (A : Type) : Type :=
  | Ok (a : A)
  | Err (f : failure).

Arguments Ok {A} a.
Arguments Err {A} f.

(** Modelled from the spec: a structured change event of the Graph Model
    (kind, affected identifiers, before/after payload), which is also the
    state a Command keeps of one mutation. *)
Inductive change : Type :=
  | NodeAdded (id : string) (n : Node)
  | NodeRemoved (id : string) (n : Node)
  | EdgeAdded (id : string) (e : Edge)
  | EdgeRemoved (id : string) (e : Edge)
  | AttributeChanged (id key : string) (before after : option attr_value).

(** Modelled from the spec: writing one attribute of a Node ([None] takes
    the attribute away, which only the inverse of a first assignment
    does). *)
Definition set_attr (key : string) (v : option attr_value) (n : Node) : Node :=
  mkNode (node_name n) (node_pos n)
    (match v with
     | Some x => <[key := x]> (node_attrs n)
     | None => delete key (node_attrs n)
     end)
    (node_ports n).

(** Modelled from the spec: the forward effect of one change on the Graph
    (the mutation code of [models], absent from the sources). *)
Definition apply_change (c : change) (g : Graph) : Graph :=
  match c with
  | NodeAdded id n => mkGraph (<[id := n]> (nodes g)) (edges g)
  | NodeRemoved id _ => mkGraph (delete id (nodes g)) (edges g)
  | EdgeAdded id e => mkGraph (nodes g) (<[id := e]> (edges g))
  | EdgeRemoved id _ => mkGraph (nodes g) (delete id (edges g))
  | AttributeChanged id key _ after =>
      mkGraph (alter (set_attr key after) id (nodes g)) (edges g)
  end.

(** Modelled from the spec: the inverse of a change, from the prior state
    the change carries (the undo code of [commands], absent from the
    sources). *)
Definition invert (c : change) : change :=
  match c with
  | NodeAdded id n => NodeRemoved id n
  | NodeRemoved id n => NodeAdded id n
  | EdgeAdded id e => EdgeRemoved id e
  | EdgeRemoved id e => EdgeAdded id e
  | AttributeChanged id key before after => AttributeChanged id key after before
  end.

(** Modelled from the spec: a batch of changes applied in order. *)
Definition apply_changes (cs : list change) (g : Graph) : Graph :=
  foldl (λ g c, apply_change c g) g cs.

(** Modelled from the spec: the inverse of a batch undoes its changes, last
    first. *)
Definition invert_changes (cs : list change) : list change :=
  reverse (invert <$> cs).

(** ** Graph Model *)

(** Modelled from the spec: an Edge touches a Node when one of its ends is
    a Connection of that Node. *)
Definition touches (id : string) (e : Edge) : Prop :=
  (edge_src e).1 = id ∨ (edge_dst e).1 = id.

#[global] Instance touches_dec id e : Decision (touches id e).
Proof. unfold touches. apply _. Defined.

(** Modelled from the spec: [nodeConnections], resolving a Connection
    reference to a live Connection of a live Node. *)
Definition connection (g : Graph) (c : string * string) : option Connection :=
  n ← nodes g !! c.1;
  snd <$> list_find (λ p, conn_name p = c.2) (node_ports n).

(** Modelled from the spec: an Edge uses a Connection when it is one of its
    two ends. *)
Definition uses (c : string * string) (e : Edge) : Prop :=
  edge_src e = c ∨ edge_dst e = c.

#[global] Instance uses_dec c e : Decision (uses c e).
Proof. unfold uses. apply _. Defined.

(** Modelled from the spec: an input Connection accepts at most one Edge;
    [occupied] tells whether some Edge of the Graph already uses it. *)
Definition occupied (g : Graph) (c : string * string) : Prop :=
  filter (λ kv, uses c kv.2) (edges g) ≠ ∅.

#[global] Instance occupied_dec g c : Decision (occupied g c).
Proof. unfold occupied. apply _. Defined.

(** Modelled from the spec: the validation of an Edge between two
    Connections: both resolve, their directions differ, and the input one
    is free.  The spec names no failure for an Edge inside one Node, so none
    is raised here. *)
Definition validate_edge (g : Graph) (a b : string * string) : result unit :=
  match connection g a, connection g b with
  | Some ca, Some cb =>
      if decide (conn_dir ca = conn_dir cb) then Err IncompatibleDirection
      else if decide (occupied g (if decide (conn_dir ca = Input) then a else b))
      then Err InputAlreadyOccupied
      else Ok ()
  | _, _ => Err DanglingConnection
  end.

(** Modelled from the spec: what a mutating call of the Graph Model returns
    on success: the new Graph and the events it emitted. *)
Definition emitted (cs : list change) (g : Graph) : result (Graph * list change) :=
  Ok (apply_changes cs g, cs).

(** Modelled from the spec: [addNode] of the Graph Model. *)
Definition addNode (id : string) (n : Node) (g : Graph) : result (Graph * list change) :=
  match nodes g !! id with
  | Some _ => Err DuplicateIdentifier
  | None => emitted [NodeAdded id n] g
  end.

(** Modelled from the spec: the events of the cascade of [removeNode]: one
    removal per Edge touching the Node. *)
Definition cascade (id : string) (g : Graph) : list change :=
  (λ kv, EdgeRemoved kv.1 kv.2) <$> map_to_list (filter (λ kv, touches id kv.2) (edges g)).

(** Modelled from the spec: [removeNode] of the Graph Model: the cascaded
    Edge removals and the removal of the Node, as one transaction. *)
Definition removeNode (id : string) (g : Graph) : result (Graph * list change) :=
  match nodes g !! id with
  | None => Err NotFound
  | Some n => emitted (cascade id g ++ [NodeRemoved id n]) g
  end.

(** Modelled from the spec: [addEdge] of the Graph Model. *)
Definition addEdge (id : string) (e : Edge) (g : Graph) : result (Graph * list change) :=
  match edges g !! id with
  | Some _ => Err DuplicateIdentifier
  | None =>
      match validate_edge g (edge_src e) (edge_dst e) with
      | Err f => Err f
      | Ok _ => emitted [EdgeAdded id e] g
      end
  end.

(** Modelled from the spec: [removeEdge] of the Graph Model. *)
Definition removeEdge (id : string) (g : Graph) : result (Graph * list change) :=
  match edges g !! id with
  | None => Err NotFound
  | Some e => emitted [EdgeRemoved id e] g
  end.

(** Modelled from the spec: [setAttribute] of the Graph Model; the event
    carries the prior value. *)
Definition setAttribute (id key : string) (v : attr_value) (g : Graph)
    : result (Graph * list change) :=
  match nodes g !! id with
  | None => Err NotFound
  | Some n => emitted [AttributeChanged id key (node_attrs n !! key) (Some v)] g
  end.

(** ** Commands and the Command Stack *)

(** Modelled from the spec: the Commands of [commands] (absent from the
    sources): one mutation, or a batch of sub-mutations applied and
    inverted as one unit. *)
Inductive Command : Type :=
  | SceneNodesCommand (c : change)
  | SceneChangedCommand (cs : list change).

(** Modelled from the spec: the mutations a Command captures. *)
Definition changes_of (c : Command) : list change :=
  match c with
  | SceneNodesCommand c => [c]
  | SceneChangedCommand cs => cs
  end.

(** Modelled from the spec: the Command for the events of one user
    action. *)
Definition command_of (cs : list change) : Command :=
  match cs with
  | [c] => SceneNodesCommand c
  | _ => SceneChangedCommand cs
  end.

(** Modelled from the spec: the Command Stack: the applied Commands (most
    recent first) and the Commands that can be redone (next first). *)
Record CommandStack : Type := mkStack {
  applied : list Command;
  redoable : list Command
}.

(** Modelled from the spec: [push] records a Command and truncates the redo
    tail. *)
Definition push (c : Command) (st : CommandStack) : CommandStack :=
  mkStack (c :: applied st) [].

(** ** Derived View Models *)

(** Modelled from the spec: the rows of [NodesListModel], [EdgesListModel]
    and [GraphTableModel] (absent from the sources), keyed by the
    identifiers of the Graph; the table caches the attributes of a Node. *)
Record Views : Type := mkViews {
  nodes_list : list string;
  edges_list : list string;
  table : list (string * gmap string attr_value)
}.

(** Modelled from the spec: patching one table cell. *)
Definition patch_row (id key : string) (v : option attr_value)
    (row : string * gmap string attr_value) : string * gmap string attr_value :=
  if decide (row.1 = id)
  then (row.1, match v with Some x => <[key := x]> row.2 | None => delete key row.2 end)
  else row.

(** Modelled from the spec: how the view models follow one change event: a
    row is appended on add, deleted on remove, one cell is patched on an
    attribute change. *)
Definition notify (v : Views) (c : change) : Views :=
  match c with
  | NodeAdded id n =>
      mkViews (nodes_list v ++ [id]) (edges_list v) (table v ++ [(id, node_attrs n)])
  | NodeRemoved id _ =>
      mkViews (filter (λ x, x ≠ id) (nodes_list v)) (edges_list v)
        (filter (λ row, row.1 ≠ id) (table v))
  | EdgeAdded id _ => mkViews (nodes_list v) (edges_list v ++ [id]) (table v)
  | EdgeRemoved id _ =>
      mkViews (nodes_list v) (filter (λ x, x ≠ id) (edges_list v)) (table v)
  | AttributeChanged id key _ after =>
      mkViews (nodes_list v) (edges_list v) (patch_row id key after <$> table v)
  end.

(** ** Scene Handler *)

(** Modelled from the spec: the state the Scene Handler of [handlers]
    (absent from the sources) keeps in step. *)
Record System : Type := mkSystem {
  graph : Graph;
  stack : CommandStack;
  views : Views
}.

(** Modelled from the spec: the interaction intents of section 4.2. *)
Inductive Intent : Type :=
  | AddNode (id : string) (n : Node)
  | DeleteNode (id : string)
  | DeleteNodes (ids : list string)
  | Connect (id : string) (a b : string * string)
  | Disconnect (id : string)
  | EditAttribute (id key : string) (v : attr_value).

(** Modelled from the spec: a multi-node delete: the removals in turn, all
    or nothing. *)
Fixpoint removeNodes (ids : list string) (g : Graph) : result (Graph * list change) :=
  match ids with
  | [] => Ok (g, [])
  | id :: ids' =>
      match removeNode id g with
      | Err f => Err f
      | Ok (g1, cs1) =>
          match removeNodes ids' g1 with
          | Err f => Err f
          | Ok (g2, cs2) => Ok (g2, cs1 ++ cs2)
          end
      end
  end.

(** Modelled from the spec: the Graph Model calls of an intent; a
    connect-intent is validated before [addEdge] is called. *)
Definition mutate (i : Intent) (g : Graph) : result (Graph * list change) :=
  match i with
  | AddNode id n => addNode id n g
  | DeleteNode id => removeNode id g
  | DeleteNodes ids => removeNodes ids g
  | Connect id a b =>
      match validate_edge g a b with
      | Err f => Err f
      | Ok _ => addEdge id (mkEdge a b) g
      end
  | Disconnect id => removeEdge id g
  | EditAttribute id key v => setAttribute id key v g
  end.

(** Modelled from the spec: [handle(intent) -> CommandResult]: on success
    the Command of the action is pushed and the events are forwarded to the
    view models; on failure nothing changes. *)
Definition handle (i : Intent) (sys : System) : result unit * System :=
  match mutate i (graph sys) with
  | Err f => (Err f, sys)
  | Ok (g, cs) =>
      (Ok (), mkSystem g (push (command_of cs) (stack sys)) (foldl notify (views sys) cs))
  end.

(** Modelled from the spec: replaying a batch of changes against the Graph
    Model, which emits them again to the view models. *)
Definition replay (cs : list change) (sys : System) (st : CommandStack) : System :=
  mkSystem (apply_changes cs (graph sys)) st (foldl notify (views sys) cs).

(** Modelled from the spec: [undo]: the most recent applied Command is
    inverted and moved to the redo side; a no-op on an empty stack. *)
Definition undo (sys : System) : System :=
  match applied (stack sys) with
  | [] => sys
  | c :: rest =>
      replay (invert_changes (changes_of c)) sys (mkStack rest (c :: redoable (stack sys)))
  end.

(** Modelled from the spec: [redo]: the next redo Command is applied again;
    a no-op when there is none. *)
Definition redo (sys : System) : System :=
  match redoable (stack sys) with
  | [] => sys
  | c :: rest =>
      replay (changes_of c) sys (mkStack (c :: applied (stack sys)) rest)
  end.

(** Modelled from the spec: a sequence of intents handled in turn; the
    number returned counts the Commands pushed. *)
Fixpoint handle_all (intents : list Intent) (sys : System) : nat * System :=
  match intents with
  | [] => (0%nat, sys)
  | i :: intents' =>
      let r := handle i sys in
      let rest := handle_all intents' r.2 in
      (match r.1 with Ok _ => S rest.1 | Err _ => rest.1 end, rest.2)
  end.

End Scene.

(** * Definitions used to state the properties *)

Import Scene.

(** The keys of the array [RecentFiles] under the group prefix [P]: its
    size, and the entry [file] of its record [i] (Qt counts records from
    one). *)
Definition arr (P : string) : string := P +:+ "RecentFiles/".

Definition size_key (P : string) : string := arr P +:+ "size".

Definition file_key (P : string) (i : Z) : string :=
  arr P +:+ pretty (i + 1) +:+ "/file".

(** What [getRecentFiles] reads from a store, under the group prefix [P]. *)
Definition read_at (m : gmap string pyval) (k : string) : pyval :=
  default PyNone (m !! k).

(** The list stored in the array: [size] entries, read in order. *)
Definition recent_view (P : string) (m : gmap string pyval) : list pyval :=
  (λ i, read_at m (file_key P i)) <$> range (toInt (read_at m (size_key P))).

(** The entry of the group stack while the array is open. *)
Definition array_group (n : Z) (mx : Z) : QSettingsGroup :=
  mkGroup "RecentFiles" n mx.

(** What the loop of [addRecentFile] writes, as a function on stores. *)
Definition write_all (P : string) (l : list pyval) (idx : list Z)
    (m : gmap string pyval) : gmap string pyval :=
  foldl (λ m i, <[file_key P i := default PyNone (l !! Z.to_nat i)]> m) m idx.

(** The array size Qt guesses from the indices that were set. *)
Definition guess_all (mx : Z) (idx : list Z) : Z :=
  foldl (λ mx i, Z.max mx (i + 1)) mx idx.

(** The list [addRecentFile] stores for a path and the list it read. *)
Definition bump (filename : string) (l : list pyval) : list pyval :=
  (if decide (PyStr filename ∈ l) then filter (λ x, x ≠ PyStr filename) l else l)
  ++ [PyStr filename].

(** The store [addRecentFile] leaves for the list [l] it writes. *)
Definition stored_array (P : string) (l : list pyval) (m : gmap string pyval)
    : gmap string pyval :=
  <[size_key P := PyInt (Z.of_nat (length l))]>
    (write_all P l (range (Z.of_nat (length l))) (remove_key (size_key P) m)).

(** A settings object over an empty store. *)
Definition fresh_settings (max_files : Z) : Settings :=
  mkSettings ∅ [] max_files None ["MainWindow"; "RecentFiles"; "Preferences"].

(** Three stored files with a maximum of two. *)
Definition three_files : Settings :=
  mkSettings
    (list_to_map [("RecentFiles/size", PyInt 3); ("RecentFiles/1/file", PyStr "a");
                  ("RecentFiles/2/file", PyStr "b"); ("RecentFiles/3/file", PyStr "c")])
    [] 2 None ["MainWindow"; "RecentFiles"; "Preferences"].

(** A settings file that already holds preferences, so that the constructor
    returns. *)
Definition saved_preferences : gmap string pyval :=
  {["Preferences/default/autosave" := PyInt 1]}.

(** The child groups of the current group, as [childGroups] returns them. *)
Definition groups_in (s : Settings) : list string :=
  match childGroups s with
  | Ret gs _ => gs
  | Exc _ _ => []
  end.

(** The state in which [initialize] runs each of its steps: no group is
    open and the file has no [Preferences] group. *)
Definition no_preferences (s : Settings) : Prop :=
  groupStack s = [] ∧ "Preferences" ∉ groups_in s.

(** The keys [allKeys] returns. *)
Definition keys_of (s : Settings) : list string :=
  omap (strip_prefix (groupPrefix s)) (map_to_list (store s)).*1.

(** An editor window with one dock, nothing stored but the preferences. *)
Definition editor_window : QMainWindow :=
  mkWindow "geometry-blob" "state-blob" [mkDock "AttributeEditor" "dock-blob"].

Definition editor_settings : Settings :=
  mkSettings saved_preferences [] 10 (Some editor_window)
    ["MainWindow"; "RecentFiles"; "Preferences"].

(** A change is exact on a Graph when the prior state it carries is the
    state of that Graph, so that its inverse puts the Graph back. *)
Definition exact_on (c : change) (g : Graph) : Prop :=
  match c with
  | NodeAdded id _ => nodes g !! id = None
  | NodeRemoved id n => nodes g !! id = Some n
  | EdgeAdded id _ => edges g !! id = None
  | EdgeRemoved id e => edges g !! id = Some e
  | AttributeChanged id key before _ =>
      ∀ n, nodes g !! id = Some n → node_attrs n !! key = before
  end.

(** A batch of changes, each exact on the Graph the previous ones left. *)
Fixpoint exact_chain (cs : list change) (g : Graph) : Prop :=
  match cs with
  | [] => True
  | c :: cs' => exact_on c g ∧ exact_chain cs' (apply_change c g)
  end.

(** The removal events of a list of Edges. *)
Definition removals (l : list (string * Edge)) : list change :=
  (λ kv, EdgeRemoved kv.1 kv.2) <$> l.

(** A Node with one output, a Node with one input, and the empty scene. *)
Definition source_node (name : string) : Node :=
  mkNode name (0, 0) ∅ [mkConnection "out1" Output].

Definition sink_node (name : string) : Node :=
  mkNode name (100, 0) ∅ [mkConnection "in1" Input].

Definition empty_system : System :=
  mkSystem (mkGraph ∅ ∅) (mkStack [] []) (mkViews [] [] []).

(** Two Nodes with one output each. *)
Definition two_sources : System :=
  (handle_all [AddNode "A" (source_node "A"); AddNode "B" (source_node "B")]
     empty_system).2.

(** [A.out1 → B.in1] and [A.out1 → C.in1], and an Edge apart from [A]. *)
Definition fan_out : System :=
  (handle_all
     [AddNode "A" (source_node "A"); AddNode "B" (sink_node "B");
      AddNode "C" (sink_node "C"); AddNode "D" (source_node "D");
      AddNode "E" (sink_node "E");
      Connect "e1" ("A", "out1") ("B", "in1");
      Connect "e2" ("A", "out1") ("C", "in1");
      Connect "e3" ("D", "out1") ("E", "in1")]
     empty_system).2.

(** The settings object an outcome leaves, returned or raised. *)
Definition state_of {A} (o : outcome A) : Settings :=
  match o with
  | Ret _ s => s
  | Exc _ s => s
  end.

(** The keys of the main window for a layout. *)
Definition geometry_key (layout : string) : string :=
  "MainWindow" +:+ "/geometry/" +:+ layout.

Definition windowState_key (layout : string) : string :=
  "MainWindow" +:+ "/windowState/" +:+ layout.





(** The editor settings after the layout [work] was saved. *)
Definition work_saved : Settings :=
  mkSettings
    (list_to_map [("MainWindow/geometry/work", PyBytes "geometry-blob");
                  ("MainWindow/windowState/work", PyBytes "state-blob");
                  ("AttributeEditor/geometry/work", PyBytes "dock-blob");
                  ("Preferences/default/autosave", PyInt 1)])
    [] 10 (Some editor_window) ["MainWindow"; "RecentFiles"; "Preferences"].

(** A call that leaves the store, the open groups and the maximum as they
    were, whether it returns or raises. *)
Definition keeps_store {A} (m : M A) : Prop :=
  ∀ s, store (state_of (m s)) = store s ∧
       groupStack (state_of (m s)) = groupStack s ∧
       _max_files (state_of (m s)) = _max_files s.

(** A window without docks, nothing stored but the preferences. *)
Definition plain_window : QMainWindow := mkWindow "geometry-blob" "state-blob" [].

Definition plain_settings : Settings :=
  mkSettings saved_preferences [] 10 (Some plain_window)
    ["MainWindow"; "RecentFiles"; "Preferences"].



(** The key [getDefaultValue] looks up for a key and its groups. *)
Definition default_path (key first : string) (others : list string) : string :=
  ((foldl (λ group_name grp, group_name +:+ "/" +:+ grp) first others
    +:+ "/" +:+ "default") +:+ "/" +:+ key).

(** The settings object once [getDefaultValue] closed the innermost open
    group, when one was open. *)
Definition popped (s : Settings) : Settings :=
  if decide (drop_last (groupPrefix s) ≠ "") then set_stack (tail (groupStack s)) s
  else s.

(** What the two first-run steps of [initialize] leave in the store: the
    layout [default] of the parent window when the file has no [MainWindow]
    group, and an empty array when it has no [RecentFiles] group. *)
Definition with_default_layout (s : Settings) : gmap string pyval :=
  if decide ("MainWindow" ∉ groups_in s) then
    match _parent s with
    | Some w =>
        <["MainWindow/windowState/default" := saveState w]>
          (<["MainWindow/geometry/default" := saveGeometry w]> (store s))
    | None => store s
    end
  else store s.

Definition with_recent_array (s : Settings) : gmap string pyval :=
  if decide ("RecentFiles" ∉ groups_in s) then <["RecentFiles/size" := PyInt 0]> (store s)
  else store s.

Definition initialized (s : Settings) : Settings :=
  set_store (with_recent_array (set_store (with_default_layout s) s))
    (set_store (with_default_layout s) s).

(** The settings object the constructor starts from. *)
Definition opened (stored : gmap string pyval) (parent : option QMainWindow)
    (max_files : Z) : Settings :=
  mkSettings stored [] max_files parent ["MainWindow"; "RecentFiles"; "Preferences"].

(** * Properties of the settings store *)

(** ** Strings *)

Lemma append_cons (x : ascii) (a b : string) :
  String x a +:+ b = String x (a +:+ b).
Proof. done. Qed.

Lemma append_assoc (a b c : string) : (a +:+ b) +:+ c = a +:+ b +:+ c.
Proof. induction a as [|x a IH]; [done|]. by rewrite !append_cons, IH. Qed.

Lemma append_length (a b : string) :
  String.length (a +:+ b) = (String.length a + String.length b)%nat.
Proof. induction a as [|x a IH]; [done|]. rewrite append_cons. cbn. by rewrite IH. Qed.

Lemma append_inj_r (a b c : string) : a +:+ c = b +:+ c → a = b.
Proof.
  revert b. induction a as [|x a IH]; intros [|y b] H.
  - done.
  - apply (f_equal String.length) in H.
    rewrite !append_length in H. cbn in H. lia.
  - apply (f_equal String.length) in H.
    rewrite !append_length in H. cbn in H. lia.
  - rewrite !append_cons in H. injection H as -> H. f_equal. by apply IH.
Qed.

Lemma strip_prefix_app (p k : string) : strip_prefix p (p +:+ k) = Some k.
Proof.
  induction p as [|x p IH]; [done|]. rewrite append_cons. cbn.
  by rewrite decide_True.
Qed.

(** ** The keys of the array of recent files *)

Lemma file_key_inj P i j : file_key P i = file_key P j → i = j.
Proof.
  unfold file_key. intros H. apply (inj _) in H. apply append_inj_r in H.
  apply (inj pretty) in H. lia.
Qed.

Lemma file_key_size_key P i : file_key P i ≠ size_key P.
Proof.
  unfold file_key, size_key. intros H. apply (inj _) in H.
  apply (f_equal String.length) in H. rewrite append_length in H. cbn in H. lia.
Qed.

(** ** Running the monad *)

Ltac munfold :=
  unfold mbind, M_bind, bind, ret, modify, get, raise in *.

Arguments normalizedKey : simpl never.

Lemma normalizedKey_RecentFiles : normalizedKey "RecentFiles" = "RecentFiles".
Proof. by vm_compute. Qed.

Lemma normalizedKey_size : normalizedKey "size" = "size".
Proof. by vm_compute. Qed.

Lemma prefix_array_0 st mx :
  prefix_of (array_group 0 mx :: st) = arr (prefix_of st).
Proof. done. Qed.

Lemma prefix_array_pos st n mx :
  0 < n →
  prefix_of (array_group n mx :: st) = arr (prefix_of st) +:+ pretty n +:+ "/".
Proof.
  intros Hn. cbn. unfold group_piece, group_toString. cbn.
  destruct (decide (0 < n)); [|lia].
  rewrite decide_False by done.
  unfold arr. by rewrite !append_assoc.


Qed.


Lemma actualKey_size s st mx :
  groupStack s = array_group 0 mx :: st →
  actualKey s "size" = size_key (prefix_of st).
Proof. unfold actualKey, groupPrefix. intros ->. by rewrite prefix_array_0. Qed.

Lemma actualKey_file s st i mx :
  0 ≤ i →
  groupStack s = array_group (i + 1) mx :: st →
  actualKey s "file" = file_key (prefix_of st) i.
Proof.
  unfold actualKey, groupPrefix. intros Hi ->. rewrite prefix_array_pos by lia.
  unfold file_key. change (normalizedKey "file") with "file".
  by rewrite !append_assoc.
Qed.

(** ** Steps of the array interface *)

Lemma set_stack_store st s : store (set_stack st s) = store s.
Proof. done. Qed.

Lemma set_stack_stack st s : groupStack (set_stack st s) = st.
Proof. done. Qed.

Lemma set_stack_id s : set_stack (groupStack s) s = s.
Proof. by destruct s. Qed.

Lemma setArrayIndex_array s st n mx i :
  groupStack s = array_group n mx :: st → 0 ≤ n → 0 ≤ i →
  setArrayIndex i s
  = Ret tt (set_stack (array_group (i + 1)
              (if decide (mx ≠ -1 ∧ mx < i + 1) then i + 1 else mx) :: st) s).
Proof.
  intros Hst Hn Hi. unfold setArrayIndex, modify. rewrite Hst. cbn.
  destruct (decide (n = -1)); [lia|]. by rewrite Z.max_l by lia.
Qed.

Lemma value_file s st i mx :
  0 ≤ i → groupStack s = array_group (i + 1) mx :: st →
  value "file" s = Ret (read_at (store s) (file_key (prefix_of st) i)) s.
Proof. intros Hi Hst. unfold value. by rewrite (actualKey_file s st i mx). Qed.

Lemma read_loop (idx : list Z) : ∀ (acc : list pyval) (s : Settings) st n,
  Forall (λ i, 0 ≤ i) idx →
  groupStack s = array_group n (-1) :: st → 0 ≤ n →
  ∃ n', 0 ≤ n' ∧
    for_each idx acc (λ i recent_files,
      setArrayIndex i;;
      fn ← value "file";
      ret (recent_files ++ [fn])) s
    = Ret (acc ++ ((λ i, read_at (store s) (file_key (prefix_of st) i)) <$> idx))
        (set_stack (array_group n' (-1) :: st) s).
Proof.
  induction idx as [|i idx IH]; intros acc s st n Hidx Hst Hn.
  - exists n. split; [done|]. cbn. unfold ret. rewrite app_nil_r, <- Hst.
    by rewrite set_stack_id.
  - apply Forall_cons in Hidx as [Hi Hidx]. cbn. munfold.
    rewrite (setArrayIndex_array s st n (-1) i) by done.
    rewrite decide_False by lia.
    rewrite (value_file _ st i (-1)) by done. rewrite set_stack_store.
    destruct (IH (acc ++ [read_at (store s) (file_key (prefix_of st) i)])
                 (set_stack (array_group (i + 1) (-1) :: st) s) st (i + 1))
      as (n' & Hn' & Heq); [done|done|lia|].
    exists n'. split; [done|]. rewrite Heq. by rewrite <- app_assoc.
Qed.

(** [getRecentFiles] returns the view of the store and leaves the settings
    object as it was. *)
Lemma getRecentFiles_spec s :
  getRecentFiles s = Ret (recent_view (groupPrefix s) (store s)) s.
Proof.
  set (s1 := set_stack (array_group 0 (-1) :: groupStack s) s).
  assert (Hst : groupStack s1 = array_group 0 (-1) :: groupStack s) by done.
  destruct (read_loop (range (toInt (read_at (store s) (size_key (groupPrefix s)))))
              [] s1 (groupStack s) 0) as (n' & Hn' & Hloop); [|done|done|].
  { apply Forall_seqZ. lia. }
  unfold getRecentFiles, beginReadArray. munfold.
  rewrite normalizedKey_RecentFiles. fold (array_group 0 (-1)). fold s1.
  unfold value at 1. rewrite (actualKey_size s1 _ _ Hst).
  fold (read_at (store s1) (size_key (prefix_of (groupStack s)))).
  unfold groupPrefix in Hloop. change (store s1) with (store s) in *.
  rewrite Hloop.
  unfold endArray. munfold. cbn. unfold recent_view, groupPrefix.
  by destruct s.
Qed.

Lemma write_all_other P l idx m k :
  k ∉ file_key P <$> idx → write_all P l idx m !! k = m !! k.
Proof.
  revert m. induction idx as [|i idx IH]; intros m Hk; [done|].
  cbn in *. apply not_elem_of_cons in Hk as [Hne Hk].
  unfold write_all in *. cbn. rewrite IH by done. by rewrite lookup_insert_ne.
Qed.

Lemma write_all_lookup P l idx m i :
  i ∈ idx →
  write_all P l idx m !! file_key P i = Some (default PyNone (l !! Z.to_nat i)).
Proof.
  revert m. induction idx as [|j idx IH]; intros m Hi; [by apply elem_of_nil in Hi|].
  destruct (decide (i ∈ idx)) as [Hin|Hnot].
  - unfold write_all in *. cbn. by apply IH.
  - apply elem_of_cons in Hi as [->|]; [|done].
    unfold write_all. cbn.
    fold (write_all P l idx
            (<[file_key P j := default PyNone (l !! Z.to_nat j)]> m)).
    rewrite write_all_other; [by rewrite lookup_insert_eq|].
    intros (j' & Heq & Hj')%list_elem_of_fmap. apply file_key_inj in Heq. by subst.
Qed.

Lemma guess_all_range mx k (c : nat) :
  0 ≤ mx ≤ k → guess_all mx (seqZ k (Z.of_nat c)) = if c is O then mx else k + Z.of_nat c.
Proof.
  intros Hmx. induction c as [|c IH]; [done|].
  rewrite seqZ_S. unfold guess_all in *. rewrite foldl_app. cbn. rewrite IH.
  destruct c; lia.
Qed.

Lemma setValue_file s st i mx v :
  0 ≤ i → groupStack s = array_group (i + 1) mx :: st →
  setValue "file" v s = Ret tt (set_store (<[file_key (prefix_of st) i := v]> (store s)) s).
Proof.
  intros Hi Hst. unfold setValue, modify. by rewrite (actualKey_file s st i mx).
Qed.

Lemma write_loop (l : list pyval) (idx : list Z) : ∀ (s : Settings) st n mx,
  Forall (λ i, 0 ≤ i < Z.of_nat (length l)) idx →
  groupStack s = array_group n mx :: st → 0 ≤ n → 0 ≤ mx →
  ∃ n', 0 ≤ n' ∧
    for_each idx tt (λ i _,
      setArrayIndex i;;
      match l !! Z.to_nat i with
      | Some v => setValue "file" v
      | None => raise IndexError
      end) s
    = Ret tt
        (set_stack (array_group n' (guess_all mx idx) :: st)
           (set_store (write_all (prefix_of st) l idx (store s)) s)).
Proof.
  induction idx as [|i idx IH]; intros s st n mx Hidx Hst Hn Hmx.
  - exists n. split; [done|]. cbn. unfold ret. destruct s; cbn in *. by subst.
  - apply Forall_cons in Hidx as [Hi Hidx]. cbn. munfold.
    rewrite (setArrayIndex_array s st n mx i) by (done || lia).
    destruct (l !! Z.to_nat i) as [v|] eqn:Hv; last first.
    { apply lookup_ge_None in Hv. lia. }
    set (mx' := if decide (mx ≠ -1 ∧ mx < i + 1) then i + 1 else mx).
    assert (mx' = Z.max mx (i + 1)) as Hmx'.
    { unfold mx'. case_decide; lia. }
    rewrite (setValue_file _ st i mx') by (done || lia).
    destruct (IH (set_store (<[file_key (prefix_of st) i := v]> (store s))
                    (set_stack (array_group (i + 1) mx' :: st) s)) st (i + 1) mx')
      as (n' & Hn' & Heq); [done|done|lia|lia|].
    exists n'. split; [done|]. rewrite set_stack_store, Heq.
    unfold write_all, guess_all. cbn [foldl]. rewrite Hmx'. by destruct s.
Qed.

Lemma size_key_nonempty P : size_key P ≠ "".
Proof.
  intros H. apply (f_equal String.length) in H. unfold size_key, arr in H.
  rewrite !append_length in H. cbn in H. lia.
Qed.

Lemma size_key_alt P : P +:+ "RecentFiles/size" = size_key P.
Proof. unfold size_key, arr. by rewrite append_assoc. Qed.

Lemma normalizedKey_RecentFiles_size :
  normalizedKey ("RecentFiles" +:+ "/size") = "RecentFiles/size".
Proof. by vm_compute. Qed.

Lemma addRecentFile_spec filename s :
  addRecentFile filename s
  = Ret tt (set_store
      (stored_array (groupPrefix s) (bump filename (recent_view (groupPrefix s) (store s)))
         (store s)) s).
Proof.
  unfold addRecentFile. unfold mbind at 1, M_bind at 1, bind at 1.
  rewrite getRecentFiles_spec.
  fold (bump filename (recent_view (groupPrefix s) (store s))).
  set (l := bump filename _).
  set (s1 := set_store (remove_key (size_key (groupPrefix s)) (store s))
               (set_stack (array_group 0 0 :: groupStack s) s)).
  destruct (write_loop l (range (Z.of_nat (length l))) s1 (groupStack s) 0 0)
    as (n' & Hn' & Hloop); [|done|done|done|].
  { apply Forall_seqZ. lia. }
  unfold beginWriteArray. munfold. rewrite normalizedKey_RecentFiles.
  rewrite decide_True by lia. rewrite decide_True by lia.
  fold (array_group 0 0). unfold remove at 1, modify.
  rewrite normalizedKey_size. rewrite (decide_False (P := "size" = "")) by done.
  assert (∀ mx st, groupPrefix (set_stack (array_group 0 mx :: st) s)
                   = arr (prefix_of st)) as Hpre by done.
  rewrite !Hpre. fold (size_key (prefix_of (groupStack s))).
  rewrite decide_False by apply size_key_nonempty.
  rewrite set_stack_store. fold (groupPrefix s). fold s1.
  rewrite Hloop. unfold endArray. munfold. rewrite set_stack_stack.
  rewrite (guess_all_range 0 0) by lia.
  assert (length l ≠ 0%nat) as Hlen.
  { unfold l, bump. rewrite length_app. cbn. lia. }
  destruct (length l) as [|c] eqn:Hc; [done|].
  unfold array_group at 1. cbn [g_maxNum g_str].
  assert (0 + Z.of_nat (S c) ≠ -1) as Hne by lia.
  rewrite (decide_True _ _ Hne). unfold setValue, modify, actualKey.
  cbn [g_str g_maxNum array_group].
  rewrite normalizedKey_RecentFiles_size. unfold groupPrefix at 1.
  rewrite set_stack_stack, size_key_alt.
  unfold stored_array. rewrite Hc. unfold s1. by destruct s.
Qed.

Lemma range_lookups {A} (d : A) (l : list A) :
  (λ i, default d (l !! Z.to_nat i)) <$> range (Z.of_nat (length l)) = l.
Proof.
  apply list_eq. intros i. unfold range. rewrite list_lookup_fmap.
  destruct (decide (i < length l)%nat) as [Hi|Hi].
  - rewrite lookup_seqZ_lt by lia. cbn. rewrite Z.add_0_l, Nat2Z.id.
    destruct (lookup_lt_is_Some_2 l i Hi) as [x Hx]. by rewrite Hx.
  - rewrite lookup_seqZ_ge by lia. cbn. symmetry. apply lookup_ge_None. lia.
Qed.

Lemma recent_view_stored P l m : recent_view P (stored_array P l m) = l.
Proof.
  unfold recent_view, stored_array, read_at at 2.
  rewrite lookup_insert_eq. cbn [default toInt].
  etrans; [|apply (range_lookups PyNone l)].
  apply list_fmap_ext. intros k i Hk.
  apply list_elem_of_lookup_2 in Hk.
  unfold read_at. rewrite lookup_insert_ne by (symmetry; apply file_key_size_key).
  by rewrite write_all_lookup.
Qed.

Lemma filter_all {A} (P : A → Prop) `{!∀ x, Decision (P x)} (l : list A) :
  Forall P l → filter P l = l.
Proof.
  induction 1 as [|x l Hx Hl IH]; [done|].
  rewrite filter_cons_True by done. by rewrite IH.
Qed.

Lemma filter_none {A} (P : A → Prop) `{!∀ x, Decision (P x)} (l : list A) :
  Forall (λ x, ¬ P x) l → filter P l = [].
Proof.
  induction 1 as [|x l Hx Hl IH]; [done|]. by rewrite filter_cons_False.
Qed.

Lemma bump_alt p l : bump p l = filter (λ x, x ≠ PyStr p) l ++ [PyStr p].
Proof.
  unfold bump. case_decide as Hin; [done|]. f_equal. symmetry.
  apply filter_all, Forall_forall. by intros x Hx ->.
Qed.

(** [addRecentFile] followed by [getRecentFiles]. *)
Lemma add_then_get p s :
  ∃ s', addRecentFile p s = Ret tt s' ∧
        groupPrefix s' = groupPrefix s ∧ _max_files s' = _max_files s ∧
        getRecentFiles s' = Ret (bump p (recent_view (groupPrefix s) (store s))) s'.
Proof.
  eexists. split; [apply addRecentFile_spec|]. split; [done|]. split; [done|].
  rewrite getRecentFiles_spec. f_equal. apply recent_view_stored.
Qed.

(** C4: after [addRecentFile(p)] the sequence of [getRecentFiles] holds [p]
    exactly once, [p] is its last element, and the other paths keep their
    relative order; a path that was present is moved, not duplicated. *)
Theorem addRecentFile_moves_to_end (s : Settings) (p : string) :
  ∃ s' before after,
    getRecentFiles s = Ret before s ∧
    addRecentFile p s = Ret tt s' ∧
    getRecentFiles s' = Ret after s' ∧
    length (filter (λ x, x = PyStr p) after) = 1%nat ∧
    last after = Some (PyStr p) ∧
    filter (λ x, x ≠ PyStr p) after = filter (λ x, x ≠ PyStr p) before.
Proof.
  destruct (add_then_get p s) as (s' & Hadd & _ & _ & Hget).
  exists s', (recent_view (groupPrefix s) (store s)),
    (bump p (recent_view (groupPrefix s) (store s))).
  split; [apply getRecentFiles_spec|]. split; [done|]. split; [done|].
  rewrite bump_alt. set (l := recent_view _ _). repeat split.
  - rewrite filter_app, length_app. cbn. rewrite decide_True by done. cbn.
    rewrite filter_none; [done|].
    apply Forall_forall. intros x Hx%list_elem_of_filter. tauto.
  - apply last_snoc.
  - rewrite filter_app. cbn. rewrite decide_False by (intros H; by apply H).
    rewrite app_nil_r. apply list_filter_filter_l. tauto.
Qed.

(** A run of [addRecentFile] calls, on the list of recent files. *)
Lemma addRecentFiles_spec paths : ∀ s,
  ∃ s', addRecentFiles paths s = Ret tt s' ∧
        groupPrefix s' = groupPrefix s ∧ _max_files s' = _max_files s ∧
        getRecentFiles s'
        = Ret (foldl (λ l p, bump p l) (recent_view (groupPrefix s) (store s)) paths) s'.
Proof.
  induction paths as [|p paths IH]; intros s.
  - exists s. repeat split. apply getRecentFiles_spec.
  - destruct (add_then_get p s) as (s1 & Hadd & Hpre & Hmax & Hget).
    destruct (IH s1) as (s' & Hrun & Hpre' & Hmax' & Hget').
    exists s'. unfold addRecentFiles in *. cbn [for_each]. munfold.
    rewrite Hadd, Hrun. split; [done|]. split; [congruence|]. split; [congruence|].
    rewrite Hget'. rewrite getRecentFiles_spec in Hget. by injection Hget as ->.
Qed.

Lemma foldl_bump_distinct (paths : list string) : ∀ (l : list pyval),
  NoDup paths →
  foldl (λ l p, bump p l) l paths
  = filter (λ x, x ∉ PyStr <$> paths) l ++ (PyStr <$> paths).
Proof.
  induction paths as [|p paths IH]; intros l Hnd.
  - cbn. rewrite app_nil_r. symmetry. apply filter_all, Forall_forall.
    intros x _ Hx. by apply elem_of_nil in Hx.
  - apply NoDup_cons in Hnd as [Hp Hnd]. cbn [foldl]. rewrite IH by done.
    rewrite bump_alt, filter_app. cbn [fmap list_fmap].
    rewrite filter_cons_True, filter_nil; last first.
    { intros (q & [= ->] & Hq)%list_elem_of_fmap. done. }
    rewrite <- app_assoc. cbn. f_equal.
    rewrite list_filter_filter. apply list_filter_iff. intros x.
    rewrite not_elem_of_cons. tauto.
Qed.

(** C5: a run of [addRecentFile] calls with distinct paths leaves them in
    [getRecentFiles] in the order of the calls, the most recently added path
    last, after the earlier entries that are not among them; from an empty
    list the result is the paths themselves. *)
Theorem addRecentFiles_recency_order (s : Settings) (paths : list string) :
  NoDup paths →
  ∃ s' before,
    getRecentFiles s = Ret before s ∧
    addRecentFiles paths s = Ret tt s' ∧
    getRecentFiles s'
    = Ret (filter (λ x, x ∉ PyStr <$> paths) before ++ (PyStr <$> paths)) s' ∧
    (before = [] → getRecentFiles s' = Ret (PyStr <$> paths) s').
Proof.
  intros Hnd. destruct (addRecentFiles_spec paths s) as (s' & Hrun & _ & _ & Hget).
  exists s', (recent_view (groupPrefix s) (store s)).
  split; [apply getRecentFiles_spec|]. split; [done|].
  rewrite foldl_bump_distinct in Hget by done. split; [done|].
  intros Hnil. by rewrite Hnil in Hget.
Qed.

Lemma addRecentFiles_recency_order_witness :
  NoDup ["a.json"; "b.json"; "c.json"] ∧
  ∃ s' before,
    getRecentFiles (fresh_settings 10) = Ret before (fresh_settings 10) ∧
    addRecentFiles ["a.json"; "b.json"; "c.json"] (fresh_settings 10) = Ret tt s' ∧
    getRecentFiles s'
    = Ret (filter (λ x, x ∉ PyStr <$> ["a.json"; "b.json"; "c.json"]) before
           ++ (PyStr <$> ["a.json"; "b.json"; "c.json"])) s' ∧
    (before = [] → getRecentFiles s' = Ret (PyStr <$> ["a.json"; "b.json"; "c.json"]) s').
Proof.
  assert (NoDup ["a.json"; "b.json"; "c.json"]) as Hnd.
  { apply (bool_decide_unpack _). vm_compute. exact I. }
  split; [exact Hnd|].
  exact (addRecentFiles_recency_order (fresh_settings 10)
           ["a.json"; "b.json"; "c.json"] Hnd).
Defined.

(** ** The capped view [recent_files] *)

Lemma collect_loop {A} (l : list A) : ∀ (acc : list A) s,
  for_each l acc (λ f tmp, ret (tmp ++ [f])) s = Ret (acc ++ l) s.
Proof.
  induction l as [|x l IH]; intros acc s; cbn.
  - by rewrite app_nil_r.
  - munfold. rewrite IH. by rewrite <- app_assoc.
Qed.

Lemma recent_files_spec s :
  recent_files s
  = Ret (slice_to (reverse (recent_view (groupPrefix s) (store s))) (_max_files s)) s.
Proof.
  unfold recent_files. munfold. rewrite getRecentFiles_spec.
  by rewrite collect_loop.
Qed.

(** C9, as the code has it: for every state whose [max_files] is not
    negative, [recent_files] is the reverse of [getRecentFiles()] cut to its
    first [max_files] elements: most recent first, never longer than
    [max_files], also when the stored list is longer. *)
Theorem recent_files_reversed_capped (s : Settings) :
  0 ≤ _max_files s →
  ∃ files,
    getRecentFiles s = Ret files s ∧
    recent_files s = Ret (take (Z.to_nat (_max_files s)) (reverse files)) s ∧
    Z.of_nat (length (take (Z.to_nat (_max_files s)) (reverse files))) ≤ _max_files s.
Proof.
  intros Hmax. exists (recent_view (groupPrefix s) (store s)).
  split; [apply getRecentFiles_spec|]. split.
  - rewrite recent_files_spec. unfold slice_to. by rewrite decide_True.
  - rewrite length_take. lia.
Qed.

Lemma recent_files_reversed_capped_witness :
  0 ≤ _max_files three_files ∧
  ∃ files,
    getRecentFiles three_files = Ret files three_files ∧
    recent_files three_files
    = Ret (take (Z.to_nat (_max_files three_files)) (reverse files)) three_files ∧
    Z.of_nat (length (take (Z.to_nat (_max_files three_files)) (reverse files)))
    ≤ _max_files three_files.
Proof.
  assert (0 ≤ _max_files three_files) as Hmax by (vm_compute; discriminate).
  split; [exact Hmax|]. exact (recent_files_reversed_capped three_files Hmax).
Defined.

Example recent_files_three :
  recent_files three_files = Ret [PyStr "c"; PyStr "b"] three_files.
Proof. by vm_compute. Qed.

(** C9 fails as stated: with [max_files = -1] and three stored files the
    slice [tmp[:-1]] returns two of them, which is neither the first [-1]
    elements of the reversed list nor a tuple of length at most [-1]. *)
Lemma recent_files_not_capped_when_negative :
  ¬ (∀ (s : Settings) (files shown : list pyval),
       getRecentFiles s = Ret files s →
       recent_files s = Ret shown s →
       shown = take (Z.to_nat (_max_files s)) (reverse files) ∧
       Z.of_nat (length shown) ≤ _max_files s).
Proof.
  intros H.
  assert (getRecentFiles (mkSettings (store three_files) [] (-1) None [])
          = Ret [PyStr "a"; PyStr "b"; PyStr "c"]
              (mkSettings (store three_files) [] (-1) None [])) as Hget
    by (vm_compute; reflexivity).
  assert (recent_files (mkSettings (store three_files) [] (-1) None [])
          = Ret [PyStr "c"; PyStr "b"]
              (mkSettings (store three_files) [] (-1) None [])) as Hshown
    by (vm_compute; reflexivity).
  destruct (H _ _ _ Hget Hshown) as [Heq Hlen].
  vm_compute in Heq. discriminate.
Qed.

(** ** Clearing the list *)

Lemma remove_key_below k r m : remove_key k m !! (k +:+ "/" +:+ r) = None.
Proof.
  unfold remove_key. apply map_lookup_filter_None. right. intros v _ [_ H].
  cbn in H. rewrite <- append_assoc, strip_prefix_app in H. done.
Qed.

Lemma clearRecentFiles_spec s :
  clearRecentFiles s
  = Ret tt (set_store (remove_key (groupPrefix s +:+ "RecentFiles") (store s)) s).
Proof.
  unfold clearRecentFiles, remove, modify. rewrite normalizedKey_RecentFiles.
  rewrite (decide_False (P := "RecentFiles" = "")) by done.
  rewrite decide_False; [done|].
  intros H. apply (f_equal String.length) in H. rewrite append_length in H.
  cbn in H. lia.
Qed.

(** C10: after [clearRecentFiles], [getRecentFiles] returns the empty
    sequence. *)
Theorem clearRecentFiles_empties (s : Settings) :
  ∃ s', clearRecentFiles s = Ret tt s' ∧ getRecentFiles s' = Ret [] s'.
Proof.
  eexists. split; [apply clearRecentFiles_spec|].
  rewrite getRecentFiles_spec. f_equal.
  unfold recent_view, read_at, size_key, arr.
  change (groupPrefix (set_store _ s)) with (groupPrefix s). cbn [store set_store].
  replace ((groupPrefix s +:+ "RecentFiles/") +:+ "size")
    with ((groupPrefix s +:+ "RecentFiles") +:+ "/" +:+ "size")
    by (by rewrite !append_assoc).
  by rewrite remove_key_below.
Qed.

(** ** The stored list is not capped *)

(** What [addRecentFile] does to the length of the stored list. *)
Lemma bump_length_fresh p l :
  PyStr p ∉ l → length (bump p l) = S (length l).
Proof. intros Hp. unfold bump. rewrite decide_False by done. rewrite length_app. cbn. lia. Qed.

(** C1, as the code has it: the cap of [max_files] (a size, so not
    negative) is applied by the property [recent_files], whose length never
    exceeds it after any run of [addRecentFile] calls; the sequence of
    [getRecentFiles] is not capped: adding a path that is not in it makes it
    one longer, whatever [max_files] is. *)
Theorem recent_files_capped_getRecentFiles_grows (s : Settings) (paths : list string) :
  0 ≤ _max_files s →
  ∃ s' files capped,
    addRecentFiles paths s = Ret tt s' ∧
    getRecentFiles s' = Ret files s' ∧
    recent_files s' = Ret capped s' ∧
    Z.of_nat (length capped) ≤ _max_files s ∧
    ∀ p, PyStr p ∉ files →
      ∃ s'' files', addRecentFile p s' = Ret tt s'' ∧
                    getRecentFiles s'' = Ret files' s'' ∧
                    length files' = S (length files).
Proof.
  intros Hmax.
  destruct (addRecentFiles_spec paths s) as (s' & Hrun & Hpre & Hmf & _).
  exists s', (recent_view (groupPrefix s') (store s')),
    (slice_to (reverse (recent_view (groupPrefix s') (store s'))) (_max_files s')).
  split; [done|]. split; [apply getRecentFiles_spec|].
  split; [apply recent_files_spec|]. split.
  - unfold slice_to. rewrite Hmf, decide_True by done. rewrite length_take. lia.
  - intros p Hp. destruct (add_then_get p s') as (s'' & Hadd & _ & _ & Hget').
    eexists s'', _. split; [done|]. split; [exact Hget'|].
    by apply bump_length_fresh.
Qed.

Lemma recent_files_capped_getRecentFiles_grows_witness :
  0 ≤ _max_files (fresh_settings 1) ∧
  ∃ s' files capped,
    addRecentFiles ["a.json"; "b.json"] (fresh_settings 1) = Ret tt s' ∧
    getRecentFiles s' = Ret files s' ∧
    recent_files s' = Ret capped s' ∧
    Z.of_nat (length capped) ≤ _max_files (fresh_settings 1) ∧
    ∀ p, PyStr p ∉ files →
      ∃ s'' files', addRecentFile p s' = Ret tt s'' ∧
                    getRecentFiles s'' = Ret files' s'' ∧
                    length files' = S (length files).
Proof.
  assert (0 ≤ _max_files (fresh_settings 1)) as Hmax by (vm_compute; discriminate).
  split; [exact Hmax|].
  exact (recent_files_capped_getRecentFiles_grows (fresh_settings 1)
           ["a.json"; "b.json"] Hmax).
Defined.

(** C1 fails as stated: an instance constructed with [max_files = 1] returns
    two paths from [getRecentFiles] after two [addRecentFile] calls. *)
Lemma getRecentFiles_exceeds_max_files :
  ¬ (∀ prefs stored parent (N : Z) (s : Settings) (paths : list string) s' files,
       __init__ prefs stored parent N = Ret tt s →
       addRecentFiles paths s = Ret tt s' →
       getRecentFiles s' = Ret files s' →
       Z.of_nat (length files) ≤ N).
Proof.
  intros H.
  destruct (__init__ [] saved_preferences None 1) as [[] s|e s] eqn:Hinit;
    [|vm_compute in Hinit; discriminate].
  destruct (addRecentFiles_spec ["a.json"; "b.json"] s) as (s' & Hrun & _ & _ & Hget).
  specialize (H [] saved_preferences None 1 s ["a.json"; "b.json"] s' _ Hinit Hrun Hget).
  cbn [foldl] in H. rewrite !bump_alt in H.
  rewrite filter_app, !length_app in H.
  rewrite (filter_cons_True _ (PyStr "a.json")) in H by done.
  cbn [length filter list_filter] in H. lia.
Qed.

Example two_files_with_max_one :
  ∃ s s',
    __init__ [] saved_preferences None 1 = Ret tt s ∧
    addRecentFiles ["a.json"; "b.json"] s = Ret tt s' ∧
    getRecentFiles s' = Ret [PyStr "a.json"; PyStr "b.json"] s' ∧
    _max_files s' = 1.
Proof.
  eexists _, _. split; [vm_compute; reflexivity|].
  split; [vm_compute; reflexivity|]. split; vm_compute; reflexivity.
Qed.

(** * The constructor *)

Lemma bind_Ret {A B} (m : M A) (f : A → M B) s a s' :
  m s = Ret a s' → (m ≫= f) s = f a s'.
Proof. intros H. unfold mbind, M_bind, bind. by rewrite H. Qed.

Lemma bind_Exc {A B} (m : M A) (f : A → M B) s e s' :
  m s = Exc e s' → (m ≫= f) s = Exc e s'.
Proof. intros H. unfold mbind, M_bind, bind. by rewrite H. Qed.

Lemma childGroups_groups_in s : childGroups s = Ret (groups_in s) s.
Proof. done. Qed.

Lemma elem_of_groups_in s g :
  groupStack s = [] →
  g ∈ groups_in s ↔ ∃ k, is_Some (store s !! k) ∧ child_group k = Some g.
Proof.
  intros Hst. unfold groups_in, childGroups, allKeys. munfold.
  unfold groupPrefix. rewrite Hst. cbn [prefix_of strip_prefix].
  rewrite elem_of_remove_dups, list_elem_of_omap. split.
  - intros (k & (k' & Hk' & Hk)%list_elem_of_omap & Hg). injection Hk as ->.
    apply list_elem_of_fmap in Hk' as ([k'' v] & -> & Hkv%elem_of_map_to_list).
    exists k''. split; [by exists v|done].
  - intros (k & [v Hv] & Hg). exists k. split; [|done].
    apply list_elem_of_omap. exists k. split; [|done].
    apply list_elem_of_fmap. exists (k, v). split; [done|].
    by apply elem_of_map_to_list.
Qed.

Lemma no_preferences_insert s k v :
  child_group k ≠ Some "Preferences" →
  no_preferences s → no_preferences (set_store (<[k := v]> (store s)) s).
Proof.
  intros Hk [Hst Hno]. split; [done|].
  rewrite elem_of_groups_in by done. rewrite elem_of_groups_in in Hno by done.
  intros (k' & Hsome & Hg). cbn in Hsome.
  destruct (decide (k = k')) as [->|Hne]; [done|].
  rewrite lookup_insert_ne in Hsome by done. apply Hno. by exists k'.
Qed.

Lemma setValue_top s k v :
  groupStack s = [] →
  setValue k v s = Ret tt (set_store (<[normalizedKey k := v]> (store s)) s).
Proof. intros Hst. unfold setValue, modify, actualKey, groupPrefix. by rewrite Hst. Qed.

Lemma options_unbound : "options" ∉ module_globals.
Proof.
  unfold module_globals. intros H.
  repeat (apply elem_of_cons in H as [H|H]; [discriminate|]).
  by apply elem_of_nil in H.
Qed.

Section Constructor.

Variable SCENEGRAPH_PREFERENCES : list (string * option pyval).

Lemma initialize_window s :
  no_preferences s →
  ∃ s1,
    (if decide ("MainWindow" ∉ groups_in s) then
       s ← get;
       match _parent s with
       | Some w =>
           setValue "MainWindow/geometry/default" (saveGeometry w);;
           setValue "MainWindow/windowState/default" (saveState w)
       | None => ret tt
       end
     else ret tt) s = Ret tt s1 ∧ no_preferences s1.
Proof.
  intros Hs. case_decide; [|by exists s].
  munfold. destruct (_parent s) as [w|]; [|by exists s].
  pose proof Hs as [Hst _]. rewrite setValue_top by done.
  rewrite setValue_top by done. eexists. split; [done|].
  apply no_preferences_insert; [by vm_compute|].
  apply no_preferences_insert; [by vm_compute|]. done.
Qed.

Lemma initialize_recent s :
  no_preferences s →
  ∃ s1,
    (if decide ("RecentFiles" ∉ groups_in s) then
       beginWriteArray "RecentFiles" 0;; endArray
     else ret tt) s = Ret tt s1 ∧ no_preferences s1.
Proof.
  intros Hs. case_decide; [|by exists s]. pose proof Hs as [Hst _].
  exists (set_store (<["RecentFiles/size" := PyInt 0]> (store s)) s). split.
  - unfold beginWriteArray. munfold. rewrite normalizedKey_RecentFiles.
    rewrite !decide_False by lia. fold (array_group 0 (-1)).
    unfold setValue, modify.
    rewrite (actualKey_size _ (groupStack s) (-1)) by done.
    rewrite Hst. unfold endArray. munfold.
    cbn [groupStack set_store set_stack array_group g_maxNum g_str].
    rewrite decide_False by (intros H'; by apply H').
    destruct s; cbn in *. by subst.
  - apply no_preferences_insert; [by vm_compute|done].
Qed.

Lemma end_groups_top s : groupStack s = [] → end_groups s = Ret tt s.
Proof. intros Hst. unfold end_groups. munfold. by rewrite Hst. Qed.

(** The bound on the rounds of [while self.group(): self.endGroup()] is
    never what stops the loop: when it returns, [group()] is empty. *)
Lemma while_group_done (fuel : nat) : ∀ s,
  (length (groupStack s) ≤ fuel)%nat →
  ∃ s', while_group fuel s = Ret tt s' ∧ drop_last (groupPrefix s') = "".
Proof.
  induction fuel as [|fuel IH]; intros s Hlen.
  - exists s. split; [done|]. unfold groupPrefix.
    destruct (groupStack s); [done|cbn in Hlen; lia].
  - cbn [while_group]. unfold group. munfold. case_decide as Hg.
    + unfold endGroup, modify. apply IH. cbn.
      destruct (groupStack s); cbn in *; lia.
    + exists s. split; [done|]. by destruct (decide (drop_last (groupPrefix s) = "")).
Qed.

Lemma end_groups_done s :
  ∃ s', end_groups s = Ret tt s' ∧ drop_last (groupPrefix s') = "".
Proof. unfold end_groups. munfold. by apply while_group_done. Qed.

Lemma initializePreferences_raises s :
  no_preferences s →
  ∃ s', initializePreferences SCENEGRAPH_PREFERENCES s = Exc (NameError "options") s'.
Proof.
  intros [Hst Hno]. unfold initializePreferences.
  rewrite (bind_Ret _ _ _ _ _ (childGroups_groups_in s)).
  rewrite decide_True by done. eexists.
  erewrite bind_Ret by done. apply bind_Exc.
  unfold load_global. by rewrite decide_False by apply options_unbound.
Qed.

Lemma initialize_raises s :
  no_preferences s →
  ∃ s', initialize SCENEGRAPH_PREFERENCES s = Exc (NameError "options") s'.
Proof.
  intros Hs. unfold initialize.
  rewrite (bind_Ret _ _ _ _ _ (childGroups_groups_in s)).
  destruct (initialize_window s Hs) as (s1 & H1 & Hs1).
  rewrite (bind_Ret _ _ _ _ _ H1).
  rewrite (bind_Ret _ _ _ _ _ (childGroups_groups_in s1)).
  destruct (initialize_recent s1 Hs1) as (s2 & H2 & Hs2).
  rewrite (bind_Ret _ _ _ _ _ H2).
  rewrite (bind_Ret _ _ _ _ _ (end_groups_top s2 (proj1 Hs2))).
  by apply initializePreferences_raises.
Qed.

End Constructor.

(** C8: when the stored settings have no [Preferences] child group, as in a
    fresh file, constructing a [Settings] raises [NameError]: [initialize]
    reaches [initializePreferences], which reads the name [options], bound
    nowhere in the module. *)
Theorem init_raises_NameError (prefs : list (string * option pyval))
    (stored : gmap string pyval) (parent : option QMainWindow) (max_files : Z) :
  "Preferences" ∉ groups_in
    (mkSettings stored [] max_files parent ["MainWindow"; "RecentFiles"; "Preferences"]) →
  ∃ s', __init__ prefs stored parent max_files = Exc (NameError "options") s'.
Proof. intros Hno. unfold __init__. by apply initialize_raises. Qed.

Lemma init_raises_NameError_witness :
  ("Preferences" ∉ groups_in
     (mkSettings ∅ [] 10 None ["MainWindow"; "RecentFiles"; "Preferences"])) ∧
  ∃ s', __init__ [] ∅ None 10 = Exc (NameError "options") s'.
Proof.
  assert ("Preferences" ∉ groups_in
    (mkSettings ∅ [] 10 None ["MainWindow"; "RecentFiles"; "Preferences"])) as Hno.
  { vm_compute. by intros H%elem_of_nil. }
  split; [exact Hno|]. exact (init_raises_NameError [] ∅ None 10 Hno).
Defined.

(** With a [Preferences] group in the file the constructor returns. *)
Example init_returns_with_preferences :
  ∃ s, __init__ [] saved_preferences None 10 = Ret tt s.
Proof. eexists. vm_compute. reflexivity. Qed.

(** * Layouts *)

Lemma allKeys_keys_of s : allKeys s = Ret (keys_of s) s.
Proof. done. Qed.

Lemma window_keys_loop (ds : list QDockWidget) : ∀ (acc : list string) s,
  for_each ds acc (λ dock result, ret (result ++ [objectName dock])) s
  = Ret (acc ++ (objectName <$> ds)) s.
Proof.
  induction ds as [|d ds IH]; intros acc s; cbn.
  - by rewrite app_nil_r.
  - munfold. rewrite IH. by rewrite <- app_assoc.
Qed.

Lemma window_keys_spec s w :
  _parent s = Some w →
  window_keys s = Ret ("MainWindow" :: (objectName <$> win_docks w)) s.
Proof.
  intros Hw. unfold window_keys. munfold. rewrite Hw.
  unfold findChildren. by rewrite window_keys_loop.
Qed.

Lemma window_keys_no_parent s : _parent s = None → window_keys s = Ret [] s.
Proof. intros Hw. unfold window_keys. munfold. by rewrite Hw. Qed.

Lemma find_named_nonempty name ds i :
  name ∈ objectName <$> ds → find_named name i ds ≠ [].
Proof.
  revert i. induction ds as [|d ds IH]; intros i Hin; [by apply elem_of_nil in Hin|].
  cbn in *. case_decide; [done|].
  apply elem_of_cons in Hin as [->|Hin]; [done|]. by apply IH.
Qed.

(** A dock of the window, reached before [value] was bound. *)
Lemma restoreLayout_body_dock layout name s w :
  name ≠ "MainWindow" → _parent s = Some w →
  name ∈ objectName <$> win_docks w →
  restoreLayout_body layout name None s = Exc (UnboundLocalError "value") s.
Proof.
  intros Hname Hw Hin. unfold restoreLayout_body. rewrite decide_True by done.
  unfold with_parent. munfold. rewrite Hw.
  pose proof (find_named_nonempty name (win_docks w) 0 Hin) as Hne.
  unfold findChildren_named. by destruct (find_named name 0 (win_docks w)).
Qed.

(** The main window, for a layout whose geometry key is absent: [value]
    stays unbound, the docks and the store are as before. *)
Lemma restoreLayout_body_main layout s w :
  _parent s = Some w →
  ("MainWindow" +:+ "/geometry/" +:+ layout) ∉ keys_of s →
  ∃ s' w', restoreLayout_body layout "MainWindow" None s = Ret None s' ∧
           _parent s' = Some w' ∧ win_docks w' = win_docks w ∧
           keys_of s' = keys_of s.
Proof.
  intros Hw Hkey. unfold restoreLayout_body. rewrite decide_False by (intros H; by apply H).
  rewrite (bind_Ret _ _ _ _ _ (allKeys_keys_of s)).
  rewrite decide_False by done.
  erewrite bind_Ret by done.
  rewrite (bind_Ret _ _ _ _ _ (allKeys_keys_of s)).
  case_decide.
  - unfold with_parent, set_window, value. munfold. rewrite Hw.
    eexists _, _. split; [done|]. split; [done|]. split; [|done].
    by destruct (default PyNone _).
  - exists s, w. by munfold.
Qed.

Lemma restoreLayout_loop layout (names : list string) : ∀ s w,
  _parent s = Some w →
  ("MainWindow" +:+ "/geometry/" +:+ layout) ∉ keys_of s →
  Forall (λ n, n = "MainWindow" ∨ n ∈ objectName <$> win_docks w) names →
  Exists (λ n, n ≠ "MainWindow") names →
  ∃ s', for_each names None (restoreLayout_body layout) s
        = Exc (UnboundLocalError "value") s'.
Proof.
  induction names as [|n names IH]; intros s w Hw Hkey Hall Hex.
  - by apply Exists_nil in Hex.
  - apply Forall_cons in Hall as [Hn Hall]. cbn [for_each].
    destruct (decide (n = "MainWindow")) as [->|Hne].
    + apply Exists_cons in Hex as [Hex|Hex]; [done|].
      destruct (restoreLayout_body_main layout s w Hw Hkey)
        as (s' & w' & Hbody & Hw' & Hdocks & Hkeys).
      rewrite (bind_Ret _ _ _ _ _ Hbody).
      apply (IH s' w'); [done|by rewrite Hkeys|by rewrite Hdocks|done].
    + destruct Hn as [Hn|Hn]; [done|]. exists s. apply bind_Exc.
      by apply (restoreLayout_body_dock layout n s w).
Qed.

(** Where the code departs from C2: with a dock in the window, restoring a
    layout whose geometry key is not stored reaches
    [dock[0].restoreGeometry(value)] before [value] was assigned. *)
Lemma restoreLayout_unbound layout s w d :
  _parent s = Some w → d ∈ win_docks w → objectName d ≠ "MainWindow" →
  ("MainWindow" +:+ "/geometry/" +:+ layout) ∉ keys_of s →
  ∃ s', restoreLayout layout s = Exc (UnboundLocalError "value") s'.
Proof.
  intros Hw Hd Hname Hkey. unfold restoreLayout.
  rewrite (bind_Ret _ _ _ _ _ (window_keys_spec s w Hw)).
  destruct (restoreLayout_loop layout ("MainWindow" :: (objectName <$> win_docks w)) s w)
    as (s' & Hloop); [done|done| | |].
  - apply Forall_cons. split; [by left|]. apply Forall_forall. by right.
  - apply Exists_cons. right. apply Exists_exists. exists (objectName d).
    split; [|done]. apply list_elem_of_fmap. by exists d.
  - exists s'. by apply bind_Exc.
Qed.

(** Without a window there is nothing to restore. *)
Lemma restoreLayout_no_parent layout s :
  _parent s = None → restoreLayout layout s = Ret tt s.
Proof.
  intros Hw. unfold restoreLayout.
  by rewrite (bind_Ret _ _ _ _ _ (window_keys_no_parent s Hw)).
Qed.

(** A window without docks, and a layout of which nothing is stored:
    [restoreLayout] returns and changes nothing. *)
Lemma restoreLayout_no_docks layout s w :
  _parent s = Some w → win_docks w = [] →
  ("MainWindow" +:+ "/geometry/" +:+ layout) ∉ keys_of s →
  ("MainWindow" +:+ "/windowState/" +:+ layout) ∉ keys_of s →
  restoreLayout layout s = Ret tt s.
Proof.
  intros Hw Hdocks Hgeo Hstate. unfold restoreLayout.
  rewrite (bind_Ret _ _ _ _ _ (window_keys_spec s w Hw)). rewrite Hdocks.
  cbn [fmap list_fmap for_each]. unfold restoreLayout_body.
  rewrite decide_False by (intros H; by apply H).
  munfold. rewrite allKeys_keys_of.
  rewrite (decide_False (P := _ ∈ keys_of s)) by done.
  rewrite allKeys_keys_of. by rewrite decide_False by done.
Qed.

(** C2 at a concrete input: after saving the layout [work], restoring the
    layout [home], which was never saved, raises [UnboundLocalError]. *)
Theorem restoreLayout_never_saved_raises :
  ∃ s1 s2,
    saveLayout "work" editor_settings = Ret tt s1 ∧
    (("MainWindow" +:+ "/geometry/" +:+ "home") ∉ keys_of s1) ∧
    restoreLayout "home" s1 = Exc (UnboundLocalError "value") s2.
Proof.
  destruct (saveLayout "work" editor_settings) as [[] s1|e s1] eqn:Hsave;
    [|vm_compute in Hsave; discriminate].
  assert (_parent s1 = Some editor_window) as Hw.
  { vm_compute in Hsave. by injection Hsave as <-. }
  assert (("MainWindow" +:+ "/geometry/" +:+ "home") ∉ keys_of s1) as Hkey.
  { vm_compute in Hsave. injection Hsave as <-. apply (bool_decide_unpack _).
    vm_compute. exact I. }
  destruct (restoreLayout_unbound "home" s1 editor_window
              (mkDock "AttributeEditor" "dock-blob") Hw) as (s2 & Hs2);
    [apply list_elem_of_here|done|done|].
  by exists s1, s2.
Qed.

(** * Properties of the scene graph engine *)

Lemma set_attr_back key before after n :
  node_attrs n !! key = before → set_attr key before (set_attr key after n) = n.
Proof.
  intros Hb. destruct n as [nm pos attrs ports]. unfold set_attr. cbn in *. f_equal.
  apply map_eq. intros k. destruct (decide (k = key)) as [->|Hne].
  - destruct before; [by rewrite lookup_insert_eq|by rewrite lookup_delete_eq].
  - destruct before, after;
      rewrite ?lookup_insert_ne, ?lookup_delete_ne, ?lookup_insert_ne,
        ?lookup_delete_ne by done; done.
Qed.

Lemma apply_invert c g :
  exact_on c g → apply_change (invert c) (apply_change c g) = g.
Proof.
  destruct g as [ns es]. destruct c as [id n|id n|id e|id e|id key before after];
    cbn; intros H; f_equal.
  - by apply delete_insert_id.
  - by apply insert_delete_id.
  - by apply delete_insert_id.
  - by apply insert_delete_id.
  - apply map_eq. intros k. destruct (decide (k = id)) as [->|Hne].
    + rewrite !lookup_alter_eq. destruct (ns !! id) as [n|] eqn:Hn; [|done].
      cbn. f_equal. apply set_attr_back. by apply H.
    + by rewrite !lookup_alter_ne.
Qed.

Lemma apply_changes_app cs1 cs2 g :
  apply_changes (cs1 ++ cs2) g = apply_changes cs2 (apply_changes cs1 g).
Proof. unfold apply_changes. apply foldl_app. Qed.

Lemma exact_chain_app cs1 cs2 g :
  exact_chain (cs1 ++ cs2) g ↔ exact_chain cs1 g ∧ exact_chain cs2 (apply_changes cs1 g).
Proof.
  revert g. induction cs1 as [|c cs1 IH]; intros g; cbn; [tauto|].
  rewrite IH. tauto.
Qed.

(** Undoing a batch of exact changes restores the Graph. *)
Lemma apply_changes_invert cs : ∀ g,
  exact_chain cs g → apply_changes (invert_changes cs) (apply_changes cs g) = g.
Proof.
  induction cs as [|c cs IH]; intros g Hex; [done|]. destruct Hex as [Hc Hcs].
  unfold invert_changes. cbn [fmap list_fmap]. rewrite reverse_cons.
  rewrite apply_changes_app. fold (invert_changes cs).
  change (apply_changes (c :: cs) g) with (apply_changes cs (apply_change c g)).
  rewrite IH by done. cbn. by apply apply_invert.
Qed.

(** ** The cascade of [removeNode] *)

Lemma removals_nodes l : ∀ g, nodes (apply_changes (removals l) g) = nodes g.
Proof.
  induction l as [|[k e] l IH]; intros g; [done|].
  change (apply_changes (removals ((k, e) :: l)) g)
    with (apply_changes (removals l) (apply_change (EdgeRemoved k e) g)).
  by rewrite IH.
Qed.

Lemma removals_edges l : ∀ g k,
  edges (apply_changes (removals l) g) !! k
  = if decide (k ∈ l.*1) then None else edges g !! k.
Proof.
  induction l as [|[k0 e0] l IH]; intros g k.
  - cbn. rewrite decide_False; [done|]. by intros H%elem_of_nil.
  - change (apply_changes (removals ((k0, e0) :: l)) g)
      with (apply_changes (removals l) (apply_change (EdgeRemoved k0 e0) g)).
    rewrite IH. cbn [fmap list_fmap fst apply_change edges].
    destruct (decide (k ∈ l.*1)) as [Hin|Hnot].
    + rewrite decide_True; [done|]. by apply elem_of_cons; right.
    + destruct (decide (k = k0)) as [->|Hne].
      * rewrite lookup_delete_eq. rewrite decide_True; [done|]. apply list_elem_of_here.
      * rewrite lookup_delete_ne by done. rewrite decide_False; [done|].
        intros [?|?]%elem_of_cons; done.
Qed.

Lemma removals_exact l : ∀ g,
  NoDup l.*1 → (∀ k e, (k, e) ∈ l → edges g !! k = Some e) →
  exact_chain (removals l) g.
Proof.
  induction l as [|[k0 e0] l IH]; intros g Hnd Hl; [done|].
  cbn in Hnd. apply NoDup_cons in Hnd as [Hk0 Hnd]. split.
  - cbn. apply Hl. apply list_elem_of_here.
  - apply IH; [done|]. intros k e Hin. cbn.
    rewrite lookup_delete_ne; [apply Hl; by apply elem_of_cons; right|].
    intros ->. apply Hk0. apply list_elem_of_fmap. by exists (k, e).
Qed.

Lemma cascade_exact id g : exact_chain (cascade id g) g.
Proof.
  unfold cascade. apply removals_exact; [apply NoDup_fst_map_to_list|].
  intros k e Hin%elem_of_map_to_list. by apply map_lookup_filter_Some in Hin as [? _].
Qed.

Lemma cascade_nodes id g : nodes (apply_changes (cascade id g) g) = nodes g.
Proof. apply removals_nodes. Qed.

(** The cascade deletes the Edges touching the Node and no others. *)
Lemma cascade_edges id g :
  edges (apply_changes (cascade id g) g)
  = filter (λ kv, ¬ touches id kv.2) (edges g).
Proof.
  apply map_eq. intros k. unfold cascade. fold (removals (map_to_list
    (filter (λ kv, touches id kv.2) (edges g)))).
  rewrite removals_edges. rewrite map_lookup_filter.
  destruct (edges g !! k) as [e|] eqn:He; cbn.
  - destruct (decide (touches id e)) as [Ht|Ht].
    + rewrite decide_True.
      * by rewrite option_guard_False by tauto.
      * apply list_elem_of_fmap. exists (k, e). split; [done|].
        apply elem_of_map_to_list. by apply map_lookup_filter_Some.
    + rewrite decide_False.
      * by rewrite option_guard_True.
      * intros ([k' e'] & -> & Hin%elem_of_map_to_list)%list_elem_of_fmap.
        apply map_lookup_filter_Some in Hin as [Hlook Ht']. cbn in *.
        rewrite He in Hlook. injection Hlook as ->. done.
  - by case_decide.
Qed.

(** ** Every mutation is exactly invertible *)

Lemma removeNode_exact id g g' cs :
  removeNode id g = Ok (g', cs) → g' = apply_changes cs g ∧ exact_chain cs g.
Proof.
  unfold removeNode, emitted. destruct (nodes g !! id) as [n|] eqn:Hn; [|done].
  intros [= <- <-]. split; [done|]. apply exact_chain_app. split.
  - apply cascade_exact.
  - split; [|done]. cbn. by rewrite cascade_nodes.
Qed.

Lemma removeNodes_exact ids : ∀ g g' cs,
  removeNodes ids g = Ok (g', cs) → g' = apply_changes cs g ∧ exact_chain cs g.
Proof.
  induction ids as [|id ids IH]; intros g g' cs; cbn.
  - by intros [= <- <-].
  - destruct (removeNode id g) as [[g1 cs1]|] eqn:H1; [|done].
    destruct (removeNodes ids g1) as [[g2 cs2]|] eqn:H2; [|done].
    intros [= <- <-]. apply removeNode_exact in H1 as [-> Hex1].
    apply IH in H2 as [-> Hex2]. split.
    + by rewrite apply_changes_app.
    + by apply exact_chain_app.
Qed.

Lemma mutate_exact i g g' cs :
  mutate i g = Ok (g', cs) → g' = apply_changes cs g ∧ exact_chain cs g.
Proof.
  destruct i as [id n|id|ids|id a b|id|id key v]; cbn.
  - unfold addNode, emitted. destruct (nodes g !! id) eqn:Hn; [done|].
    by intros [= <- <-].
  - apply removeNode_exact.
  - apply removeNodes_exact.
  - destruct (validate_edge g a b); [|done]. unfold addEdge, emitted.
    destruct (edges g !! id) eqn:He; [done|]. cbn.
    destruct (validate_edge g a b); [|done]. by intros [= <- <-].
  - unfold removeEdge, emitted. destruct (edges g !! id) eqn:He; [|done].
    by intros [= <- <-].
  - unfold setAttribute, emitted. destruct (nodes g !! id) as [n|] eqn:Hn; [|done].
    intros [= <- <-]. split; [done|]. split; [|done]. cbn. intros n' Hn'.
    rewrite Hn in Hn'. by injection Hn' as <-.
Qed.

Lemma changes_of_command_of cs : changes_of (command_of cs) = cs.
Proof. by destruct cs as [|c [|c' cs]]. Qed.

(** ** Undo *)

(** One handled intent and one [undo]. *)
Lemma undo_handle i sys sys' :
  handle i sys = (Ok (), sys') →
  graph (undo sys') = graph sys ∧
  applied (stack (undo sys')) = applied (stack sys) ∧
  ∃ c, applied (stack sys') = c :: applied (stack sys).
Proof.
  unfold handle. destruct (mutate i (graph sys)) as [[g cs]|] eqn:Hm; [|done].
  intros [= <-]. apply mutate_exact in Hm as [-> Hex]. unfold undo.
  cbn [stack applied push graph replay].
  rewrite !changes_of_command_of. split; [exact (apply_changes_invert cs _ Hex)|].
  split; [done|]. by eexists.
Qed.

(** [undo] acts on the Graph and the applied Commands only. *)
Lemma undo_same a b :
  graph a = graph b → applied (stack a) = applied (stack b) →
  graph (undo a) = graph (undo b) ∧ applied (stack (undo a)) = applied (stack (undo b)).
Proof.
  intros Hg Ha. unfold undo. rewrite Ha.
  destruct (applied (stack b)) eqn:Hb; [split; [done|congruence]|].
  cbn. by rewrite Hg.
Qed.

Lemma handle_all_undo intents : ∀ sys,
  graph (Nat.iter (handle_all intents sys).1 undo (handle_all intents sys).2) = graph sys ∧
  applied (stack (Nat.iter (handle_all intents sys).1 undo (handle_all intents sys).2))
  = applied (stack sys) ∧
  length (applied (stack (handle_all intents sys).2))
  = ((handle_all intents sys).1 + length (applied (stack sys)))%nat.
Proof.
  induction intents as [|i intents IH]; intros sys; [done|]. cbn [handle_all].
  destruct (handle i sys) as [[[]|f] sys1] eqn:Hh; cbn [fst snd].
  - destruct (IH sys1) as (Hg & Ha & Hlen).
    destruct (undo_handle i sys sys1 Hh) as (Hg1 & Ha1 & c & Hpush).
    destruct (undo_same _ _ Hg Ha) as [Hg2 Ha2]. cbn [Nat.iter].
    change (Nat.iter (S ?n) undo ?x) with (undo (Nat.iter n undo x)).
    split; [by rewrite Hg2|]. split; [by rewrite Ha2|].
    rewrite Hlen, Hpush. cbn. lia.
  - assert (sys1 = sys) as ->.
    { unfold handle in Hh. destruct (mutate i (graph sys)) as [[g cs]|]; [done|].
      by injection Hh. }
    apply IH.
Qed.

(** C3: after a sequence of mutations, each pushed as a Command, as many
    [undo()] calls as Commands were pushed restore the Graph Model to its
    state before the sequence: the same Nodes with the same attribute values
    and the same Edges. *)
Theorem undo_all_restores (intents : list Intent) (sys : System) :
  let n := (handle_all intents sys).1 in
  let sys' := (handle_all intents sys).2 in
  length (applied (stack sys')) = (n + length (applied (stack sys)))%nat ∧
  nodes (graph (Nat.iter n undo sys')) = nodes (graph sys) ∧
  edges (graph (Nat.iter n undo sys')) = edges (graph sys) ∧
  graph (Nat.iter n undo sys') = graph sys.
Proof.
  cbn zeta. destruct (handle_all_undo intents sys) as (Hg & _ & Hlen).
  split; [done|]. by rewrite Hg.
Qed.

(** ** Rejected connections *)

(** C6: a connect-intent between two output-direction Connections fails
    with [IncompatibleDirection] and leaves the Graph Model, the Command
    Stack and the view models as they were. *)
Theorem connect_outputs_rejected (sys : System) (id : string) (a b : string * string)
    (ca cb : Connection) :
  connection (graph sys) a = Some ca → connection (graph sys) b = Some cb →
  conn_dir ca = Output → conn_dir cb = Output →
  handle (Connect id a b) sys = (Err IncompatibleDirection, sys) ∧
  graph (handle (Connect id a b) sys).2 = graph sys ∧
  stack (handle (Connect id a b) sys).2 = stack sys ∧
  views (handle (Connect id a b) sys).2 = views sys.
Proof.
  intros Ha Hb Hda Hdb.
  assert (handle (Connect id a b) sys = (Err IncompatibleDirection, sys)) as H.
  { unfold handle, mutate, validate_edge. rewrite Ha, Hb.
    by rewrite decide_True by congruence. }
  by rewrite H.
Qed.

Lemma connect_outputs_rejected_witness :
  connection (graph two_sources) ("A", "out1") = Some (mkConnection "out1" Output) ∧
  connection (graph two_sources) ("B", "out1") = Some (mkConnection "out1" Output) ∧
  conn_dir (mkConnection "out1" Output) = Output ∧
  handle (Connect "e1" ("A", "out1") ("B", "out1")) two_sources
  = (Err IncompatibleDirection, two_sources) ∧
  graph (handle (Connect "e1" ("A", "out1") ("B", "out1")) two_sources).2
  = graph two_sources ∧
  stack (handle (Connect "e1" ("A", "out1") ("B", "out1")) two_sources).2
  = stack two_sources ∧
  views (handle (Connect "e1" ("A", "out1") ("B", "out1")) two_sources).2
  = views two_sources.
Proof.
  assert (connection (graph two_sources) ("A", "out1")
          = Some (mkConnection "out1" Output)) as Ha by (vm_compute; reflexivity).
  assert (connection (graph two_sources) ("B", "out1")
          = Some (mkConnection "out1" Output)) as Hb by (vm_compute; reflexivity).
  split; [exact Ha|]. split; [exact Hb|]. split; [reflexivity|].
  exact (connect_outputs_rejected two_sources "e1" ("A", "out1") ("B", "out1")
           _ _ Ha Hb eq_refl eq_refl).
Defined.

(** ** Deleting a Node *)

(** C7: [removeNode], through the Scene Handler, deletes the Node and
    exactly the Edges touching its Connections; the cascade is recorded as
    one Command, and one [undo()] restores the Node and all those Edges. *)
Theorem removeNode_cascade_one_unit (sys : System) (id : string) (n : Node) :
  nodes (graph sys) !! id = Some n →
  ∃ sys' c,
    handle (DeleteNode id) sys = (Ok (), sys') ∧
    nodes (graph sys') = delete id (nodes (graph sys)) ∧
    edges (graph sys') = filter (λ kv, ¬ touches id kv.2) (edges (graph sys)) ∧
    (∀ k e, edges (graph sys) !! k = Some e →
            (edges (graph sys') !! k = None ↔ touches id e)) ∧
    applied (stack sys') = c :: applied (stack sys) ∧
    graph (undo sys') = graph sys ∧
    applied (stack (undo sys')) = applied (stack sys).
Proof.
  intros Hn.
  destruct (handle (DeleteNode id) sys) as [r sys'] eqn:Hh.
  assert (r = Ok () ∧
          graph sys' = apply_changes (cascade id (graph sys) ++ [NodeRemoved id n]) (graph sys))
    as [-> Hg].
  { unfold handle, mutate, removeNode, emitted in Hh. rewrite Hn in Hh.
    by injection Hh as <- <-. }
  destruct (undo_handle _ _ _ Hh) as (Hundo & Happ & c & Hpush).
  assert (edges (graph sys') = filter (λ kv, ¬ touches id kv.2) (edges (graph sys)))
    as Hedges.
  { rewrite Hg, apply_changes_app. cbn. apply cascade_edges. }
  exists sys', c. split; [done|]. split.
  { rewrite Hg, apply_changes_app. cbn. by rewrite cascade_nodes. }
  split; [done|]. split; [|done].
  intros k e He. rewrite Hedges, map_lookup_filter_None. cbn. split.
  - intros [Hnone|Hall]; [congruence|].
    destruct (decide (touches id e)) as [|Hnt]; [done|]. by destruct (Hall e He).
  - intros Ht. right. intros e' He'. rewrite He in He'. injection He' as <-. tauto.
Qed.

Lemma removeNode_cascade_one_unit_witness :
  nodes (graph fan_out) !! "A" = Some (source_node "A") ∧
  ∃ sys' c,
    handle (DeleteNode "A") fan_out = (Ok (), sys') ∧
    nodes (graph sys') = delete "A" (nodes (graph fan_out)) ∧
    edges (graph sys') = filter (λ kv, ¬ touches "A" kv.2) (edges (graph fan_out)) ∧
    (∀ k e, edges (graph fan_out) !! k = Some e →
            (edges (graph sys') !! k = None ↔ touches "A" e)) ∧
    applied (stack sys') = c :: applied (stack fan_out) ∧
    graph (undo sys') = graph fan_out ∧
    applied (stack (undo sys')) = applied (stack fan_out).
Proof.
  assert (nodes (graph fan_out) !! "A" = Some (source_node "A")) as Hn
    by (vm_compute; reflexivity).
  split; [exact Hn|].
  exact (removeNode_cascade_one_unit fan_out "A" (source_node "A") Hn).
Defined.

Example fan_out_edges :
  edges (graph fan_out)
  = list_to_map [("e1", mkEdge ("A", "out1") ("B", "in1"));
                 ("e2", mkEdge ("A", "out1") ("C", "in1"));
                 ("e3", mkEdge ("D", "out1") ("E", "in1"))].
Proof. vm_compute. reflexivity. Qed.

Example fan_out_delete_A :
  edges (graph (handle (DeleteNode "A") fan_out).2)
  = {["e3" := mkEdge ("D", "out1") ("E", "in1")]} ∧
  length (applied (stack (handle (DeleteNode "A") fan_out).2))
  = S (length (applied (stack fan_out))).
Proof. split; vm_compute; reflexivity. Qed.

(** The scenario of the specification: two Nodes, one Edge, two undos, two
    redos. *)
Example undo_redo_scenario :
  let s3 := (handle_all
               [AddNode "A" (source_node "A"); AddNode "B" (sink_node "B");
                Connect "e1" ("A", "out1") ("B", "in1")] empty_system).2 in
  (size (nodes (graph s3)), size (edges (graph s3))) = (2%nat, 1%nat) ∧
  (size (nodes (graph (undo s3))), size (edges (graph (undo s3)))) = (2%nat, 0%nat) ∧
  (size (nodes (graph (undo (undo s3)))), size (edges (graph (undo (undo s3)))))
  = (1%nat, 0%nat) ∧
  graph (redo (redo (undo (undo s3)))) = graph s3.
Proof. cbn zeta. repeat split; vm_compute; reflexivity. Qed.

(** * Further properties of the settings store *)

Example split_examples :
  split "/geometry/" "MainWindow/geometry/work" = ["MainWindow"; "work"] ∧
  split "/geometry/" "MainWindow/geometry/" = ["MainWindow"; ""] ∧
  split "/geometry/" "a/geometry/b/geometry/c" = ["a"; "b"; "c"] ∧
  split "/geometry/" "Preferences/default/geometry_mode" = ["Preferences/default/geometry_mode"] ∧
  contains "geometry" "Preferences/default/geometry_mode" = true ∧
  contains "geometry" "RecentFiles/size" = false.
Proof. repeat split; vm_compute; reflexivity. Qed.

(** ** Recent files: what the list holds *)

Lemma strip_prefix_inv (p k r : string) : strip_prefix p k = Some r → k = p +:+ r.
Proof.
  revert k. induction p as [|x p IH]; intros k H; cbn in *; [by injection H as ->|].
  destruct k as [|y k]; [done|]. case_decide; [|done]. subst.
  rewrite append_cons. f_equal. by apply IH.
Qed.

Lemma strip_prefix_None_app (p q k : string) :
  strip_prefix p k = None → strip_prefix (p +:+ q) k = None.
Proof.
  intros Hp. destruct (strip_prefix (p +:+ q) k) as [r|] eqn:Hq; [|done].
  apply strip_prefix_inv in Hq. rewrite append_assoc in Hq.
  by rewrite Hq, strip_prefix_app in Hp.
Qed.

Lemma bump_elem_of p l x : x ∈ bump p l ↔ x ∈ l ∨ x = PyStr p.
Proof.
  rewrite bump_alt, elem_of_app, list_elem_of_filter, list_elem_of_singleton.
  split.
  - intros [[_ Hin]|Heq]; [by left|by right].
  - intros [Hin|Heq]; [|by right].
    destruct (decide (x = PyStr p)); [by right|by left].
Qed.

Lemma bump_NoDup p l : NoDup l → NoDup (bump p l).
Proof.
  intros Hl. rewrite bump_alt. apply NoDup_app. split; [by apply NoDup_filter|].
  split; [|apply NoDup_singleton].
  intros x [Hx _]%list_elem_of_filter ->%list_elem_of_singleton. done.
Qed.

Lemma bump_bump p l : bump p (bump p l) = bump p l.
Proof.
  rewrite !bump_alt. f_equal. rewrite filter_app. cbn.
  rewrite decide_False by (intros H; by apply H). rewrite app_nil_r.
  apply list_filter_filter_l. tauto.
Qed.

(** X1: when the stored size of the array is absent, not a number, zero or
    negative, [getRecentFiles] returns the empty tuple and leaves the
    settings object as it was. *)
Theorem getRecentFiles_without_size (s : Settings) :
  toInt (default PyNone (store s !! (groupPrefix s +:+ "RecentFiles/size"))) ≤ 0 →
  getRecentFiles s = Ret [] s.
Proof.
  intros Hsize. rewrite getRecentFiles_spec. f_equal.
  unfold recent_view, read_at. rewrite <- size_key_alt.
  unfold range. by rewrite seqZ_nil.
Qed.

Lemma getRecentFiles_without_size_witness :
  toInt (default PyNone
           (store (mkSettings {["RecentFiles/size" := PyStr "many"]} [] 10 None [])
              !! (groupPrefix (mkSettings {["RecentFiles/size" := PyStr "many"]} [] 10 None [])
                  +:+ "RecentFiles/size"))) ≤ 0 ∧
  getRecentFiles (mkSettings {["RecentFiles/size" := PyStr "many"]} [] 10 None [])
  = Ret [] (mkSettings {["RecentFiles/size" := PyStr "many"]} [] 10 None []).
Proof.
  assert (toInt (default PyNone
           (store (mkSettings {["RecentFiles/size" := PyStr "many"]} [] 10 None [])
              !! (groupPrefix (mkSettings {["RecentFiles/size" := PyStr "many"]} [] 10 None [])
                  +:+ "RecentFiles/size"))) ≤ 0) as H by (vm_compute; discriminate).
  split; [exact H|]. exact (getRecentFiles_without_size _ H).
Defined.

(** X2: [addRecentFile] of the same path twice in a row stores the same list
    as once. *)
Theorem addRecentFile_twice (s : Settings) (p : string) :
  ∃ s1 s2 files,
    addRecentFile p s = Ret tt s1 ∧ addRecentFile p s1 = Ret tt s2 ∧
    getRecentFiles s1 = Ret files s1 ∧ getRecentFiles s2 = Ret files s2.
Proof.
  destruct (add_then_get p s) as (s1 & Hadd1 & Hpre1 & _ & Hget1).
  destruct (add_then_get p s1) as (s2 & Hadd2 & _ & _ & Hget2).
  exists s1, s2, (bump p (recent_view (groupPrefix s) (store s))).
  split; [done|]. split; [done|]. split; [done|].
  rewrite Hget2. f_equal. rewrite getRecentFiles_spec in Hget1.
  injection Hget1 as ->. apply bump_bump.
Qed.

(** X3: a run of [addRecentFile] calls never introduces a duplicate: a list
    without duplicates stays without duplicates. *)
Theorem addRecentFiles_NoDup (s : Settings) (paths : list string) (before : list pyval) :
  getRecentFiles s = Ret before s → NoDup before →
  ∃ s' after,
    addRecentFiles paths s = Ret tt s' ∧ getRecentFiles s' = Ret after s' ∧
    NoDup after.
Proof.
  intros Hget Hnd. rewrite getRecentFiles_spec in Hget. injection Hget as <-.
  destruct (addRecentFiles_spec paths s) as (s' & Hrun & _ & _ & Hget').
  eexists s', _. split; [done|]. split; [exact Hget'|].
  generalize dependent (recent_view (groupPrefix s) (store s)). clear.
  induction paths as [|p paths IH]; intros l Hl; [done|].
  cbn. apply IH. by apply bump_NoDup.
Qed.

Lemma addRecentFiles_NoDup_witness :
  getRecentFiles three_files = Ret [PyStr "a"; PyStr "b"; PyStr "c"] three_files ∧
  NoDup [PyStr "a"; PyStr "b"; PyStr "c"] ∧
  ∃ s' after,
    addRecentFiles ["b"; "d"; "b"] three_files = Ret tt s' ∧
    getRecentFiles s' = Ret after s' ∧ NoDup after.
Proof.
  assert (getRecentFiles three_files = Ret [PyStr "a"; PyStr "b"; PyStr "c"] three_files)
    as Hget by (vm_compute; reflexivity).
  assert (NoDup [PyStr "a"; PyStr "b"; PyStr "c"]) as Hnd.
  { apply (bool_decide_unpack _). vm_compute. exact I. }
  split; [exact Hget|]. split; [exact Hnd|].
  exact (addRecentFiles_NoDup three_files ["b"; "d"; "b"] _ Hget Hnd).
Defined.

(** X4: [addRecentFile] never loses a path: the list afterwards holds what
    it held before and the path added, nothing else. *)
Theorem addRecentFile_keeps_paths (s : Settings) (p : string) :
  ∃ s' before after,
    getRecentFiles s = Ret before s ∧ addRecentFile p s = Ret tt s' ∧
    getRecentFiles s' = Ret after s' ∧
    ∀ x, x ∈ after ↔ x ∈ before ∨ x = PyStr p.
Proof.
  destruct (add_then_get p s) as (s' & Hadd & _ & _ & Hget).
  eexists s', _, _. split; [apply getRecentFiles_spec|]. split; [done|].
  split; [exact Hget|]. intros x. apply bump_elem_of.
Qed.

(** ** Recent files: what the calls leave alone *)

Lemma remove_key_other k k' m :
  k' ≠ k → strip_prefix (k +:+ "/") k' = None → remove_key k m !! k' = m !! k'.
Proof.
  intros Hne Hpre. unfold remove_key. rewrite map_lookup_filter.
  destruct (m !! k') as [v|]; [|done]. cbn. by rewrite option_guard_True.
Qed.

Lemma stored_array_other P l m k :
  strip_prefix (arr P) k = None → stored_array P l m !! k = m !! k.
Proof.
  intros Hk. unfold stored_array.
  assert (∀ r, k ≠ arr P +:+ r) as Hne.
  { intros r ->. by rewrite strip_prefix_app in Hk. }
  rewrite lookup_insert_ne by (intros H; by apply (Hne "size")).
  rewrite write_all_other.
  - apply remove_key_other; [apply (Hne "size")|].
    unfold size_key. rewrite append_assoc. by apply strip_prefix_None_app.
  - intros (i & -> & _)%list_elem_of_fmap. by apply (Hne (pretty (i + 1) +:+ "/file")).
Qed.

(** X5: [addRecentFile] writes below the group [RecentFiles] only: every
    other key keeps its value, and the open groups, the parent and the
    maximum are as before. *)
Theorem addRecentFile_other_keys (s : Settings) (p k : string) :
  strip_prefix (groupPrefix s +:+ "RecentFiles/") k = None →
  ∃ s', addRecentFile p s = Ret tt s' ∧
        store s' !! k = store s !! k ∧
        groupStack s' = groupStack s ∧ _parent s' = _parent s ∧
        _max_files s' = _max_files s.
Proof.
  intros Hk. eexists. split; [apply addRecentFile_spec|].
  split; [|done]. cbn. by apply stored_array_other.
Qed.

Lemma addRecentFile_other_keys_witness :
  strip_prefix (groupPrefix editor_settings +:+ "RecentFiles/")
    "Preferences/default/autosave" = None ∧
  ∃ s', addRecentFile "scene.json" editor_settings = Ret tt s' ∧
        store s' !! "Preferences/default/autosave"
        = store editor_settings !! "Preferences/default/autosave" ∧
        groupStack s' = groupStack editor_settings ∧
        _parent s' = _parent editor_settings ∧
        _max_files s' = _max_files editor_settings.
Proof.
  assert (strip_prefix (groupPrefix editor_settings +:+ "RecentFiles/")
            "Preferences/default/autosave" = None) as H by (vm_compute; reflexivity).
  split; [exact H|].
  exact (addRecentFile_other_keys editor_settings "scene.json" _ H).
Defined.

(** X6: [clearRecentFiles] removes the key [RecentFiles] and the keys below
    it, and no other key. *)
Theorem clearRecentFiles_other_keys (s : Settings) (k : string) :
  k ≠ groupPrefix s +:+ "RecentFiles" →
  strip_prefix (groupPrefix s +:+ "RecentFiles/") k = None →
  ∃ s', clearRecentFiles s = Ret tt s' ∧
        store s' !! k = store s !! k ∧
        store s' !! (groupPrefix s +:+ "RecentFiles") = None ∧
        (∀ r, store s' !! (groupPrefix s +:+ "RecentFiles/" +:+ r) = None) ∧
        groupStack s' = groupStack s.
Proof.
  intros Hne Hk. eexists. split; [apply clearRecentFiles_spec|]. cbn.
  split; [|split; [|split; [|done]]].
  - apply remove_key_other; [done|]. by rewrite append_assoc.
  - unfold remove_key. apply map_lookup_filter_None. right. intros v _ [H _]. done.
  - intros r.
    replace (groupPrefix s +:+ "RecentFiles/" +:+ r)
      with ((groupPrefix s +:+ "RecentFiles") +:+ "/" +:+ r)
      by (by rewrite append_assoc).
    apply remove_key_below.
Qed.

Lemma clearRecentFiles_other_keys_witness :
  "Preferences/default/autosave" ≠ groupPrefix three_files +:+ "RecentFiles" ∧
  strip_prefix (groupPrefix three_files +:+ "RecentFiles/")
    "Preferences/default/autosave" = None ∧
  ∃ s', clearRecentFiles three_files = Ret tt s' ∧
        store s' !! "Preferences/default/autosave"
        = store three_files !! "Preferences/default/autosave" ∧
        store s' !! (groupPrefix three_files +:+ "RecentFiles") = None ∧
        (∀ r, store s' !! (groupPrefix three_files +:+ "RecentFiles/" +:+ r) = None) ∧
        groupStack s' = groupStack three_files.
Proof.
  assert ("Preferences/default/autosave" ≠ groupPrefix three_files +:+ "RecentFiles")
    as H1 by (vm_compute; discriminate).
  assert (strip_prefix (groupPrefix three_files +:+ "RecentFiles/")
            "Preferences/default/autosave" = None) as H2 by (vm_compute; reflexivity).
  split; [exact H1|]. split; [exact H2|].
  exact (clearRecentFiles_other_keys three_files _ H1 H2).
Defined.

(** X7: after [clearRecentFiles], [addRecentFile(p)] leaves the one-element
    list of [p], whatever the list was. *)
Theorem clear_then_add (s : Settings) (p : string) :
  ∃ s1 s2,
    clearRecentFiles s = Ret tt s1 ∧ addRecentFile p s1 = Ret tt s2 ∧
    getRecentFiles s2 = Ret [PyStr p] s2.
Proof.
  pose proof (clearRecentFiles_spec s) as Hclear.
  set (s1 := set_store _ s) in Hclear.
  assert (recent_view (groupPrefix s1) (store s1) = []) as Hempty.
  { unfold recent_view, read_at, size_key, arr, s1. cbn [store set_store].
    change (groupPrefix (set_store _ s)) with (groupPrefix s).
    replace ((groupPrefix s +:+ "RecentFiles/") +:+ "size")
      with ((groupPrefix s +:+ "RecentFiles") +:+ "/" +:+ "size")
      by (by rewrite !append_assoc).
    by rewrite remove_key_below. }
  destruct (add_then_get p s1) as (s2 & Hadd & _ & _ & Hget).
  exists s1, s2. split; [done|]. split; [done|]. by rewrite Hempty in Hget.
Qed.

(** ** The menu view [recent_files] *)

(** X8: with room for at least one entry, the first element of
    [recent_files] after [addRecentFile(p)] is [p]. *)
Theorem recent_files_head_is_last_added (s : Settings) (p : string) :
  1 ≤ _max_files s →
  ∃ s' shown,
    addRecentFile p s = Ret tt s' ∧ recent_files s' = Ret shown s' ∧
    head shown = Some (PyStr p).
Proof.
  intros Hmax. destruct (add_then_get p s) as (s' & Hadd & _ & Hmf & Hget).
  eexists s', _. split; [done|]. split; [apply recent_files_spec|].
  rewrite getRecentFiles_spec in Hget. injection Hget as ->.
  rewrite bump_alt, reverse_snoc. unfold slice_to. rewrite Hmf.
  rewrite decide_True by lia.
  destruct (Z.to_nat (_max_files s)) as [|n] eqn:Hn; [lia|done].
Qed.

Lemma recent_files_head_is_last_added_witness :
  1 ≤ _max_files three_files ∧
  ∃ s' shown,
    addRecentFile "a" three_files = Ret tt s' ∧ recent_files s' = Ret shown s' ∧
    head shown = Some (PyStr "a").
Proof.
  assert (1 ≤ _max_files three_files) as H by (vm_compute; discriminate).
  split; [exact H|]. exact (recent_files_head_is_last_added three_files "a" H).
Defined.

(** X9: after at least [max_files] distinct paths were added in a row,
    [recent_files] shows exactly the [max_files] newest of them, newest
    first, whatever was stored before. *)
Theorem recent_files_newest (s : Settings) (paths : list string) :
  NoDup paths → 0 ≤ _max_files s ≤ Z.of_nat (length paths) →
  ∃ s',
    addRecentFiles paths s = Ret tt s' ∧
    recent_files s'
    = Ret (take (Z.to_nat (_max_files s)) (reverse (PyStr <$> paths))) s'.
Proof.
  intros Hnd Hmax.
  destruct (addRecentFiles_spec paths s) as (s' & Hrun & _ & Hmf & Hget).
  exists s'. split; [done|]. rewrite recent_files_spec. f_equal.
  rewrite getRecentFiles_spec in Hget. injection Hget as ->.
  rewrite foldl_bump_distinct by done. unfold slice_to. rewrite Hmf.
  rewrite decide_True by lia. rewrite reverse_app.
  apply take_app_le. rewrite length_reverse, length_fmap. lia.
Qed.

Lemma recent_files_newest_witness :
  NoDup ["d"; "e"; "f"] ∧
  0 ≤ _max_files three_files ≤ Z.of_nat (length ["d"; "e"; "f"]) ∧
  ∃ s',
    addRecentFiles ["d"; "e"; "f"] three_files = Ret tt s' ∧
    recent_files s'
    = Ret (take (Z.to_nat (_max_files three_files))
             (reverse (PyStr <$> ["d"; "e"; "f"]))) s'.
Proof.
  assert (NoDup ["d"; "e"; "f"]) as Hnd.
  { apply (bool_decide_unpack _). vm_compute. exact I. }
  assert (0 ≤ _max_files three_files ≤ Z.of_nat (length ["d"; "e"; "f"])) as Hmax.
  { split; vm_compute; discriminate. }
  split; [exact Hnd|]. split; [exact Hmax|].
  exact (recent_files_newest three_files ["d"; "e"; "f"] Hnd Hmax).
Defined.

(** X10: a negative [max_files] does not empty [recent_files]: the slice
    [tmp[:max_files]] then drops the [-max_files] oldest entries and keeps
    the others, newest first. *)
Theorem recent_files_negative_max (s : Settings) :
  _max_files s < 0 →
  ∃ files,
    getRecentFiles s = Ret files s ∧
    recent_files s = Ret (reverse (drop (Z.to_nat (- _max_files s)) files)) s.
Proof.
  intros Hmax. eexists. split; [apply getRecentFiles_spec|].
  rewrite recent_files_spec. f_equal. unfold slice_to.
  rewrite decide_False by lia. rewrite take_reverse, length_reverse. f_equal.
  set (l := recent_view _ _).
  destruct (decide (- _max_files s ≤ Z.of_nat (length l))) as [Hle|Hgt].
  - f_equal. lia.
  - rewrite !drop_ge by lia. done.
Qed.

Lemma recent_files_negative_max_witness :
  _max_files (mkSettings (store three_files) [] (-1) None []) < 0 ∧
  ∃ files,
    getRecentFiles (mkSettings (store three_files) [] (-1) None [])
    = Ret files (mkSettings (store three_files) [] (-1) None []) ∧
    recent_files (mkSettings (store three_files) [] (-1) None [])
    = Ret (reverse (drop (Z.to_nat
             (- _max_files (mkSettings (store three_files) [] (-1) None []))) files))
        (mkSettings (store three_files) [] (-1) None []).
Proof.
  assert (_max_files (mkSettings (store three_files) [] (-1) None []) < 0) as H
    by (vm_compute; reflexivity).
  split; [exact H|]. exact (recent_files_negative_max _ H).
Defined.

Example recent_files_negative_one :
  recent_files (mkSettings (store three_files) [] (-1) None [])
  = Ret [PyStr "c"; PyStr "b"] (mkSettings (store three_files) [] (-1) None []).
Proof. vm_compute. reflexivity. Qed.

(** ** Layouts: saving and restoring *)

Lemma elem_of_keys_of s k :
  k ∈ keys_of s ↔ is_Some (store s !! (groupPrefix s +:+ k)).
Proof.
  unfold keys_of. rewrite list_elem_of_omap. split.
  - intros (k' & Hk' & ->%strip_prefix_inv).
    apply list_elem_of_fmap in Hk' as ([k'' v] & -> & Hkv%elem_of_map_to_list).
    by exists v.
  - intros [v Hv]. exists (groupPrefix s +:+ k). split; [|apply strip_prefix_app].
    apply list_elem_of_fmap. exists (groupPrefix s +:+ k, v). split; [done|].
    by apply elem_of_map_to_list.
Qed.
















Example saveLayout_work :
  saveLayout "work" editor_settings = Ret tt work_saved.
Proof. vm_compute. reflexivity. Qed.


(** ** Layouts: what [restoreLayout] leaves alone *)

Lemma keeps_store_bind {A B} (m : M A) (f : A → M B) :
  keeps_store m → (∀ a, keeps_store (f a)) → keeps_store (m ≫= f).
Proof.
  intros Hm Hf s. unfold mbind, M_bind, bind. specialize (Hm s).
  destruct (m s) as [a s1|e s1]; cbn in *; [|done].
  destruct (Hf a s1) as (H1 & H2 & H3). destruct Hm as (H4 & H5 & H6).
  split; [congruence|]. split; congruence.
Qed.

Lemma keeps_store_ret {A} (a : A) : keeps_store (ret a).
Proof. by intros s. Qed.

Lemma keeps_store_raise {A} (e : exn) : keeps_store (raise (A := A) e).
Proof. by intros s. Qed.

Lemma keeps_store_for_each {A B} (xs : list A) (body : A → B → M B) :
  (∀ x acc, keeps_store (body x acc)) → ∀ acc, keeps_store (for_each xs acc body).
Proof.
  intros Hbody. induction xs as [|x xs IH]; intros acc; cbn [for_each].
  - apply keeps_store_ret.
  - apply keeps_store_bind; [apply Hbody|apply IH].
Qed.

Lemma keeps_store_with_parent {A} (method : string) (f : QMainWindow → M A) :
  (∀ w, keeps_store (f w)) → keeps_store (with_parent method f).
Proof.
  intros Hf. unfold with_parent. apply keeps_store_bind; [by intros s|].
  intros s. destruct (_parent s); [apply Hf|apply keeps_store_raise].
Qed.

Lemma keeps_store_set_window (w : QMainWindow) : keeps_store (set_window w).
Proof. by intros s. Qed.

Lemma keeps_store_window_keys : keeps_store window_keys.
Proof.
  unfold window_keys. apply keeps_store_bind; [by intros s|]. intros s.
  destruct (_parent s); [|apply keeps_store_ret].
  apply keeps_store_for_each. intros. apply keeps_store_ret.
Qed.

Lemma keeps_store_restoreLayout_body layout name value_var :
  keeps_store (restoreLayout_body layout name value_var).
Proof.
  unfold restoreLayout_body. case_decide.
  - apply keeps_store_with_parent. intros w.
    destruct (findChildren_named w name); [apply keeps_store_ret|].
    destruct value_var; [|apply keeps_store_raise].
    apply keeps_store_bind; [apply keeps_store_set_window|].
    intros. apply keeps_store_ret.
  - apply keeps_store_bind; [by intros s|]. intros keys.
    apply keeps_store_bind.
    + case_decide; [|apply keeps_store_ret].
      apply keeps_store_bind; [by intros s|]. intros v.
      apply keeps_store_bind; [|intros; apply keeps_store_ret].
      apply keeps_store_with_parent. intros. apply keeps_store_set_window.
    + intros vv. apply keeps_store_bind; [by intros s|]. intros keys'.
      apply keeps_store_bind; [|intros; apply keeps_store_ret].
      case_decide; [|apply keeps_store_ret].
      apply keeps_store_bind; [by intros s|]. intros v.
      apply keeps_store_with_parent. intros. apply keeps_store_set_window.
Qed.

(** X13: [restoreLayout] never writes to the store: whatever the layout and
    the window, and whether it returns or raises, the stored keys, the open
    groups and the maximum are as before. *)
Theorem restoreLayout_keeps_store (layout : string) (s : Settings) :
  store (state_of (restoreLayout layout s)) = store s ∧
  groupStack (state_of (restoreLayout layout s)) = groupStack s ∧
  _max_files (state_of (restoreLayout layout s)) = _max_files s.
Proof.
  revert s. change (keeps_store (restoreLayout layout)). unfold restoreLayout.
  apply keeps_store_bind; [apply keeps_store_window_keys|]. intros keys.
  apply keeps_store_bind; [|intros; apply keeps_store_ret].
  apply keeps_store_for_each. intros. apply keeps_store_restoreLayout_body.
Qed.



(** X15: in a window without docks, restoring a layout of which neither key
    of the main window is stored returns and changes nothing. *)
Theorem restoreLayout_absent_without_docks (layout : string) (s : Settings)
    (w : QMainWindow) :
  _parent s = Some w → win_docks w = [] →
  geometry_key layout ∉ keys_of s → windowState_key layout ∉ keys_of s →
  restoreLayout layout s = Ret tt s.
Proof. intros Hw Hd Hg Hs. by apply (restoreLayout_no_docks layout s w). Qed.

Lemma restoreLayout_absent_without_docks_witness :
  _parent plain_settings = Some plain_window ∧
  win_docks plain_window = [] ∧
  (geometry_key "home" ∉ keys_of plain_settings) ∧
  (windowState_key "home" ∉ keys_of plain_settings) ∧
  restoreLayout "home" plain_settings = Ret tt plain_settings.
Proof.
  assert (geometry_key "home" ∉ keys_of plain_settings) as Hg
    by (apply (bool_decide_unpack _); vm_compute; exact I).
  assert (windowState_key "home" ∉ keys_of plain_settings) as Hs
    by (apply (bool_decide_unpack _); vm_compute; exact I).
  split; [reflexivity|]. split; [reflexivity|]. split; [exact Hg|]. split; [exact Hs|].
  exact (restoreLayout_absent_without_docks "home" plain_settings plain_window
           eq_refl eq_refl Hg Hs).
Defined.

(** ** Layouts: deleting *)














Lemma not_elem_of_keys_of s k :
  k ∉ keys_of s ↔ store s !! (groupPrefix s +:+ k) = None.
Proof. rewrite elem_of_keys_of. by rewrite eq_None_not_Some. Qed.





Example deleteLayout_work :
  deleteLayout "work" work_saved = Ret tt editor_settings.
Proof. vm_compute. reflexivity. Qed.

(** ** Without a window *)

Lemma deleteLayout_no_parent layout s :
  _parent s = None → deleteLayout layout s = Ret tt s.
Proof.
  intros Hw. unfold deleteLayout.
  by rewrite (bind_Ret _ _ _ _ _ (window_keys_no_parent s Hw)).
Qed.

(** X18: a [Settings] without a parent window (the default of the
    constructor) has no window keys; [saveLayout] raises [AttributeError]
    and writes nothing, [restoreLayout] and [deleteLayout] return and change
    nothing, even for a layout that is stored. *)
Theorem layouts_without_parent (layout : string) (s : Settings) :
  _parent s = None →
  window_keys s = Ret [] s ∧
  saveLayout layout s = Exc (AttributeError "saveGeometry") s ∧
  restoreLayout layout s = Ret tt s ∧
  deleteLayout layout s = Ret tt s.
Proof.
  intros Hw. split; [by apply window_keys_no_parent|].
  split; [|split; [by apply restoreLayout_no_parent|by apply deleteLayout_no_parent]].
  unfold saveLayout, with_parent. munfold. by rewrite Hw.
Qed.

Lemma layouts_without_parent_witness :
  _parent (set_parent None work_saved) = None ∧
  window_keys (set_parent None work_saved) = Ret [] (set_parent None work_saved) ∧
  saveLayout "work" (set_parent None work_saved)
  = Exc (AttributeError "saveGeometry") (set_parent None work_saved) ∧
  restoreLayout "work" (set_parent None work_saved) = Ret tt (set_parent None work_saved) ∧
  deleteLayout "work" (set_parent None work_saved) = Ret tt (set_parent None work_saved).
Proof.
  split; [reflexivity|].
  exact (layouts_without_parent "work" (set_parent None work_saved) eq_refl).
Defined.

(** ** Listing the layouts *)










Example get_layouts_work :
  get_layouts work_saved = Ret ["work"] work_saved.
Proof. vm_compute. reflexivity. Qed.

Example get_layouts_names :
  get_layouts
    (mkSettings (list_to_map [("MainWindow/geometry/zoom", PyBytes "g1");
                              ("MainWindow/geometry/a/geometry/b", PyBytes "g2");
                              ("Dock/geometry/zoom", PyBytes "g3");
                              ("MainWindow/windowState/other", PyBytes "s");
                              ("Preferences/default/geometry_mode", PyInt 1)])
       [] 10 None [])
  = Ret ["b"; "zoom"]
      (mkSettings (list_to_map [("MainWindow/geometry/zoom", PyBytes "g1");
                                ("MainWindow/geometry/a/geometry/b", PyBytes "g2");
                                ("Dock/geometry/zoom", PyBytes "g3");
                                ("MainWindow/windowState/other", PyBytes "s");
                                ("Preferences/default/geometry_mode", PyInt 1)])
         [] 10 None []).
Proof. vm_compute. reflexivity. Qed.

(** ** Default values *)

Lemma default_path_loop (others : list string) : ∀ (first : string) s,
  for_each others first (λ grp group_name, ret (group_name +:+ "/" +:+ grp)) s
  = Ret (foldl (λ group_name grp, group_name +:+ "/" +:+ grp) first others) s.
Proof.
  induction others as [|g others IH]; intros first s; cbn [for_each foldl]; [done|].
  unfold mbind, M_bind, bind, ret at 1. by rewrite IH.
Qed.

(** X21: [getDefaultValue] without a group name raises [IndexError]
    ([groups[0]] of an empty tuple), after it closed the innermost open
    group; the store is not touched. *)
Theorem getDefaultValue_no_groups (key : string) (s : Settings) :
  getDefaultValue key [] s = Exc IndexError (popped s) ∧
  store (popped s) = store s.
Proof.
  split.
  - unfold getDefaultValue.
    change (mbind ?f group) with (g ← group; f g).
    unfold mbind at 1, M_bind at 1, bind at 1.
    unfold mbind at 1, M_bind at 1, bind at 1.
    unfold group, endGroup, modify, popped, raise, ret. by case_decide.
  - unfold popped. by case_decide.
Qed.

(** X22: [getDefaultValue] closes the innermost open group, if one is open,
    and returns what is stored under [<groups joined by />/default/<key>]
    relative to the groups still open, [None] when nothing is; the store is
    not touched.  The path must be a normalized key. *)
Theorem getDefaultValue_lookup (key first : string) (others : list string)
    (s : Settings) :
  normalizedKey (default_path key first others) = default_path key first others →
  getDefaultValue key (first :: others) s
  = Ret (default PyNone
           (store s !! (groupPrefix (popped s) +:+ default_path key first others)))
      (popped s).
Proof.
  intros Hn. unfold getDefaultValue.
  unfold mbind at 1, M_bind at 1, bind at 1.
  unfold mbind at 1, M_bind at 1, bind at 1.
  assert ((if decide (drop_last (groupPrefix s) ≠ "") then endGroup else ret tt) s
          = Ret tt (popped s)) as Hpop.
  { unfold endGroup, modify, popped, ret. by case_decide. }
  unfold group at 1. rewrite Hpop.
  rewrite (bind_Ret _ _ _ _ _ (default_path_loop others first (popped s))).
  cbn zeta. fold (default_path key first others).
  rewrite (bind_Ret _ _ _ _ _ (allKeys_keys_of (popped s))).
  assert (store (popped s) = store s) as Hstore by (unfold popped; by case_decide).
  destruct (decide (default_path key first others ∈ keys_of (popped s))) as [Hin|Hin].
  - unfold value, actualKey. by rewrite Hn, Hstore.
  - apply not_elem_of_keys_of in Hin. rewrite Hstore in Hin. by rewrite Hin.
Qed.

Lemma getDefaultValue_lookup_witness :
  normalizedKey (default_path "autosave" "Preferences" [])
  = default_path "autosave" "Preferences" [] ∧
  getDefaultValue "autosave" ["Preferences"] editor_settings
  = Ret (default PyNone
           (store editor_settings
              !! (groupPrefix (popped editor_settings)
                  +:+ default_path "autosave" "Preferences" [])))
      (popped editor_settings).
Proof.
  assert (normalizedKey (default_path "autosave" "Preferences" [])
          = default_path "autosave" "Preferences" []) as H
    by (vm_compute; reflexivity).
  split; [exact H|].
  exact (getDefaultValue_lookup "autosave" "Preferences" [] editor_settings H).
Defined.

Example getDefaultValue_autosave :
  getDefaultValue "autosave" ["Preferences"] editor_settings = Ret (PyInt 1) editor_settings ∧
  getDefaultValue "missing" ["Preferences"] editor_settings = Ret PyNone editor_settings ∧
  getDefaultValue "size" ["Viewport"; "Grid"]
    (mkSettings {["Viewport/Grid/default/size" := PyInt 20]} [] 10 None [])
  = Ret (PyInt 20) (mkSettings {["Viewport/Grid/default/size" := PyInt 20]} [] 10 None []).
Proof. repeat split; vm_compute; reflexivity. Qed.

(** ** The constructor on a file that has preferences *)

Lemma groups_in_insert s k v g :
  groupStack s = [] →
  g ∈ groups_in (set_store (<[k := v]> (store s)) s)
  ↔ g ∈ groups_in s ∨ child_group k = Some g.
Proof.
  intros Hst. rewrite !elem_of_groups_in by done. cbn [store set_store]. split.
  - intros (k' & Hsome & Hg). destruct (decide (k = k')) as [->|Hne]; [by right|].
    left. exists k'. by rewrite lookup_insert_ne in Hsome.
  - intros [(k' & Hsome & Hg)|Hg].
    + exists k'. split; [|done]. rewrite lookup_insert. by case_decide.
    + exists k. split; [|done]. by rewrite lookup_insert_eq.
Qed.

Lemma groups_in_absent s k g :
  groupStack s = [] → g ∉ groups_in s → child_group k = Some g → store s !! k = None.
Proof.
  intros Hst Hg Hk. apply eq_None_not_Some. intros Hsome. apply Hg.
  apply elem_of_groups_in; [done|]. by exists k.
Qed.

Section ConstructorReturns.

Variable SCENEGRAPH_PREFERENCES : list (string * option pyval).

Lemma initialize_window_exact s :
  groupStack s = [] →
  (if decide ("MainWindow" ∉ groups_in s) then
     s ← get;
     match _parent s with
     | Some w =>
         setValue "MainWindow/geometry/default" (saveGeometry w);;
         setValue "MainWindow/windowState/default" (saveState w)
     | None => ret tt
     end
   else ret tt) s = Ret tt (set_store (with_default_layout s) s).
Proof.
  intros Hst. unfold with_default_layout. case_decide.
  - munfold. destruct (_parent s) as [w|]; [|by destruct s].
    rewrite setValue_top by done. rewrite setValue_top by done.
    assert (normalizedKey "MainWindow/geometry/default" = "MainWindow/geometry/default")
      as -> by (vm_compute; reflexivity).
    assert (normalizedKey "MainWindow/windowState/default" = "MainWindow/windowState/default")
      as -> by (vm_compute; reflexivity).
    by destruct s.
  - unfold ret. by destruct s.
Qed.

Lemma initialize_recent_exact s :
  groupStack s = [] →
  (if decide ("RecentFiles" ∉ groups_in s) then
     beginWriteArray "RecentFiles" 0;; endArray
   else ret tt) s = Ret tt (set_store (with_recent_array s) s).
Proof.
  intros Hst. unfold with_recent_array. case_decide; [|unfold ret; by destruct s].
  unfold beginWriteArray. munfold. rewrite normalizedKey_RecentFiles.
  rewrite !decide_False by lia. fold (array_group 0 (-1)).
  unfold setValue, modify.
  rewrite (actualKey_size _ (groupStack s) (-1)) by done.
  rewrite Hst. unfold endArray. munfold.
  cbn [groupStack set_store set_stack array_group g_maxNum g_str].
  rewrite decide_False by (intros H'; by apply H').
  destruct s; cbn in *. by subst.
Qed.

Lemma initialized_groups s g :
  groupStack s = [] → g ∈ groups_in s → g ∈ groups_in (initialized s).
Proof.
  intros Hst Hg. unfold initialized, with_recent_array.
  assert (g ∈ groups_in (set_store (with_default_layout s) s)) as Hg1.
  { unfold with_default_layout. case_decide; [|by destruct s].
    destruct (_parent s); [|by destruct s].
    change (set_store (<[?k2 := ?v2]> (<[?k1 := ?v1]> (store s))) s)
      with (set_store (<[k2 := v2]> (store (set_store (<[k1 := v1]> (store s)) s)))
              (set_store (<[k1 := v1]> (store s)) s)).
    apply groups_in_insert; [done|]. left. apply groups_in_insert; [done|]. by left. }
  case_decide; [|by destruct s].
  set (s1 := set_store (with_default_layout s) s) in *.
  change (set_store (<[?k := ?v]> (store s1)) s1)
    with (set_store (<[k := v]> (store s1)) s1).
  apply groups_in_insert; [done|]. by left.
Qed.

Lemma initialize_returns s :
  groupStack s = [] → "Preferences" ∈ groups_in s →
  initialize SCENEGRAPH_PREFERENCES s = Ret tt (initialized s).
Proof.
  intros Hst Hpref. unfold initialize.
  rewrite (bind_Ret _ _ _ _ _ (childGroups_groups_in s)).
  rewrite (bind_Ret _ _ _ _ _ (initialize_window_exact s Hst)).
  set (s1 := set_store (with_default_layout s) s).
  rewrite (bind_Ret _ _ _ _ _ (childGroups_groups_in s1)).
  rewrite (bind_Ret _ _ _ _ _ (initialize_recent_exact s1 Hst)).
  fold (initialized s).
  rewrite (bind_Ret _ _ _ _ _ (end_groups_top (initialized s) Hst)).
  unfold initializePreferences.
  rewrite (bind_Ret _ _ _ _ _ (childGroups_groups_in (initialized s))).
  rewrite decide_False; [done|]. intros H. apply H. by apply initialized_groups.
Qed.

End ConstructorReturns.

Lemma with_default_layout_subseteq s :
  groupStack s = [] → store s ⊆ with_default_layout s.
Proof.
  intros Hst. unfold with_default_layout. case_decide as Hm; [|done].
  destruct (_parent s) as [w|]; [|done].
  etrans; [apply (insert_subseteq _ "MainWindow/geometry/default" (saveGeometry w))|].
  - by apply (groups_in_absent s _ "MainWindow").
  - apply insert_subseteq. rewrite lookup_insert_ne by done.
    by apply (groups_in_absent s _ "MainWindow").
Qed.

Lemma with_recent_array_subseteq s :
  groupStack s = [] → store s ⊆ with_recent_array s.
Proof.
  intros Hst. unfold with_recent_array. case_decide as Hm; [|done].
  apply insert_subseteq. by apply (groups_in_absent s _ "RecentFiles").
Qed.

Lemma initialized_recent_group s :
  groupStack s = [] → "RecentFiles" ∈ groups_in (initialized s).
Proof.
  intros Hst. unfold initialized, with_recent_array.
  set (s1 := set_store (with_default_layout s) s).
  destruct (decide ("RecentFiles" ∉ groups_in s1)) as [Hno|Hyes].
  - apply groups_in_insert; [done|]. by right.
  - apply dec_stable in Hyes. by destruct s1.
Qed.

Lemma initialized_window_group s w :
  groupStack s = [] → _parent s = Some w → "MainWindow" ∈ groups_in (initialized s).
Proof.
  intros Hst Hw.
  assert ("MainWindow" ∈ groups_in (set_store (with_default_layout s) s)) as H1.
  { unfold with_default_layout. rewrite Hw.
    destruct (decide ("MainWindow" ∉ groups_in s)) as [Hno|Hyes].
    - change (set_store (<[?k2 := ?v2]> (<[?k1 := ?v1]> (store s))) s)
        with (set_store (<[k2 := v2]> (store (set_store (<[k1 := v1]> (store s)) s)))
                (set_store (<[k1 := v1]> (store s)) s)).
      apply groups_in_insert; [done|]. by right.
    - apply dec_stable in Hyes. by destruct s. }
  unfold initialized, with_recent_array.
  set (s1 := set_store (with_default_layout s) s) in *.
  case_decide; [|by destruct s1].
  apply groups_in_insert; [done|]. by left.
Qed.

(** X23: on a file that has a [Preferences] group the constructor returns;
    it keeps every stored key with its value, leaves no group open, and the
    object has a [RecentFiles] group and, with a parent window, a
    [MainWindow] group. *)
Theorem init_returns_with_preferences_group (prefs : list (string * option pyval))
    (stored : gmap string pyval) (parent : option QMainWindow) (max_files : Z) :
  "Preferences" ∈ groups_in (opened stored parent max_files) →
  ∃ s, __init__ prefs stored parent max_files = Ret tt s ∧
       stored ⊆ store s ∧ groupStack s = [] ∧
       _parent s = parent ∧ _max_files s = max_files ∧
       "RecentFiles" ∈ groups_in s ∧
       (∀ w, parent = Some w → "MainWindow" ∈ groups_in s).
Proof.
  intros Hpref. exists (initialized (opened stored parent max_files)).
  split; [by apply initialize_returns|]. split.
  { etrans; [apply (with_default_layout_subseteq (opened stored parent max_files) eq_refl)|].
    apply (with_recent_array_subseteq
             (set_store (with_default_layout (opened stored parent max_files))
                (opened stored parent max_files)) eq_refl). }
  split; [done|]. split; [done|]. split; [done|].
  split; [by apply initialized_recent_group|].
  intros w ->. by apply (initialized_window_group _ w).
Qed.

Lemma init_returns_with_preferences_group_witness :
  ("Preferences" ∈ groups_in (opened saved_preferences (Some editor_window) 10)) ∧
  ∃ s, __init__ [] saved_preferences (Some editor_window) 10 = Ret tt s ∧
       saved_preferences ⊆ store s ∧ groupStack s = [] ∧
       _parent s = Some editor_window ∧ _max_files s = 10 ∧
       "RecentFiles" ∈ groups_in s ∧
       (∀ w, Some editor_window = Some w → "MainWindow" ∈ groups_in s).
Proof.
  assert ("Preferences" ∈ groups_in (opened saved_preferences (Some editor_window) 10))
    as H by (apply (bool_decide_unpack _); vm_compute; exact I).
  split; [exact H|].
  exact (init_returns_with_preferences_group [] saved_preferences
           (Some editor_window) 10 H).
Defined.

Lemma init_returns_inv prefs stored parent max_files s :
  __init__ prefs stored parent max_files = Ret tt s →
  "Preferences" ∈ groups_in (opened stored parent max_files) ∧
  s = initialized (opened stored parent max_files).
Proof.
  intros Hinit.
  destruct (decide ("Preferences" ∈ groups_in (opened stored parent max_files)))
    as [Hin|Hno].
  - split; [done|]. unfold __init__ in Hinit. fold (opened stored parent max_files) in Hinit.
    rewrite initialize_returns in Hinit by done. by injection Hinit.
  - destruct (initialize_raises prefs (opened stored parent max_files)) as [s' Hs'];
      [by split|].
    unfold __init__ in Hinit. fold (opened stored parent max_files) in Hinit.
    by rewrite Hs' in Hinit.
Qed.

Lemma initialized_fixed s :
  groupStack s = [] → "RecentFiles" ∈ groups_in s →
  (∀ w, _parent s = Some w → "MainWindow" ∈ groups_in s) →
  initialized s = s.
Proof.
  intros Hst Hrecent Hwindow.
  assert (with_default_layout s = store s) as H1.
  { unfold with_default_layout. case_decide as Hm; [|done].
    destruct (_parent s) as [w|] eqn:Hw; [|done]. by destruct (Hm (Hwindow w eq_refl)). }
  unfold initialized. rewrite H1.
  assert (set_store (store s) s = s) as -> by (by destruct s).
  unfold with_recent_array. rewrite decide_False by (intros H; by apply H).
  by destruct s.
Qed.

(** X24: constructing a second time over what the first construction
    stored changes nothing: the constructor writes its defaults once. *)
Theorem init_twice (prefs : list (string * option pyval))
    (stored : gmap string pyval) (parent : option QMainWindow) (max_files : Z)
    (s : Settings) :
  __init__ prefs stored parent max_files = Ret tt s →
  __init__ prefs (store s) parent max_files = Ret tt s.
Proof.
  intros Hinit. apply init_returns_inv in Hinit as [Hpref ->].
  set (s0 := opened stored parent max_files).
  assert (opened (store (initialized s0)) parent max_files = initialized s0) as Hopen
    by done.
  unfold __init__. fold (opened (store (initialized s0)) parent max_files).
  rewrite Hopen. rewrite initialize_returns; [|done|by apply initialized_groups].
  f_equal. apply initialized_fixed; [done|by apply initialized_recent_group|].
  intros w Hw. by apply (initialized_window_group s0 w).
Qed.

Lemma init_twice_witness :
  __init__ [] saved_preferences (Some editor_window) 10
  = Ret tt (initialized (opened saved_preferences (Some editor_window) 10)) ∧
  __init__ [] (store (initialized (opened saved_preferences (Some editor_window) 10)))
    (Some editor_window) 10
  = Ret tt (initialized (opened saved_preferences (Some editor_window) 10)).
Proof.
  assert (__init__ [] saved_preferences (Some editor_window) 10
          = Ret tt (initialized (opened saved_preferences (Some editor_window) 10)))
    as H by (vm_compute; reflexivity).
  split; [exact H|].
  exact (init_twice [] saved_preferences (Some editor_window) 10 _ H).
Defined.

Lemma recent_view_insert_other P k v m :
  strip_prefix (arr P) k = None → recent_view P (<[k := v]> m) = recent_view P m.
Proof.
  intros Hk.
  assert (∀ r, k ≠ arr P +:+ r) as Hne.
  { intros r ->. by rewrite strip_prefix_app in Hk. }
  unfold recent_view, read_at, size_key, file_key.
  rewrite lookup_insert_ne by apply Hne.
  apply list_fmap_ext. intros _ i _. by rewrite lookup_insert_ne by apply Hne.
Qed.

Lemma recent_view_initialized s :
  groupStack s = [] →
  recent_view "" (store (initialized s)) = recent_view "" (store s).
Proof.
  intros Hst. unfold initialized. cbn [store set_store].
  assert (recent_view "" (with_default_layout s) = recent_view "" (store s)) as H1.
  { unfold with_default_layout. case_decide; [|done]. destruct (_parent s); [|done].
    rewrite !recent_view_insert_other by (vm_compute; reflexivity). done. }
  rewrite <- H1. set (s1 := set_store (with_default_layout s) s).
  unfold with_recent_array. case_decide as Hno; [|done].
  change (with_default_layout s) with (store s1).
  assert (store s1 !! "RecentFiles/size" = None) as Hsize
    by (by apply (groups_in_absent s1 _ "RecentFiles")).
  unfold recent_view, read_at.
  change (size_key "") with "RecentFiles/size".
  by rewrite lookup_insert_eq, Hsize.
Qed.

(** X25: the constructor keeps the list of recent files the file holds:
    [getRecentFiles] on the new object returns what the stored array
    holds, and the empty tuple when the file had none. *)
Theorem init_keeps_recent_files (prefs : list (string * option pyval))
    (stored : gmap string pyval) (parent : option QMainWindow) (max_files : Z)
    (s : Settings) :
  __init__ prefs stored parent max_files = Ret tt s →
  ∃ files,
    getRecentFiles (opened stored parent max_files)
    = Ret files (opened stored parent max_files) ∧
    getRecentFiles s = Ret files s ∧
    ("RecentFiles" ∉ groups_in (opened stored parent max_files) → files = []).
Proof.
  intros Hinit. apply init_returns_inv in Hinit as [Hpref ->].
  set (s0 := opened stored parent max_files).
  exists (recent_view "" (store s0)). split; [apply getRecentFiles_spec|]. split.
  - rewrite getRecentFiles_spec. f_equal. by apply recent_view_initialized.
  - intros Hno. unfold recent_view, read_at. change (size_key "") with "RecentFiles/size".
    by rewrite (groups_in_absent s0 "RecentFiles/size" "RecentFiles").
Qed.

Lemma init_keeps_recent_files_witness :
  __init__ [] (<["Preferences/default/autosave" := PyInt 1]> (store three_files)) None 2
  = Ret tt (initialized
              (opened (<["Preferences/default/autosave" := PyInt 1]> (store three_files))
                 None 2)) ∧
  ∃ files,
    getRecentFiles
      (opened (<["Preferences/default/autosave" := PyInt 1]> (store three_files)) None 2)
    = Ret files
        (opened (<["Preferences/default/autosave" := PyInt 1]> (store three_files)) None 2) ∧
    getRecentFiles
      (initialized
         (opened (<["Preferences/default/autosave" := PyInt 1]> (store three_files)) None 2))
    = Ret files
        (initialized
           (opened (<["Preferences/default/autosave" := PyInt 1]> (store three_files))
              None 2)) ∧
    ("RecentFiles"
     ∉ groups_in
         (opened (<["Preferences/default/autosave" := PyInt 1]> (store three_files)) None 2)
     → files = []).
Proof.
  assert (__init__ [] (<["Preferences/default/autosave" := PyInt 1]> (store three_files))
            None 2
          = Ret tt (initialized
                      (opened (<["Preferences/default/autosave" := PyInt 1]>
                                 (store three_files)) None 2)))
    as H by (vm_compute; reflexivity).
  split; [exact H|].
  exact (init_keeps_recent_files [] _ None 2 _ H).
Defined.


